(** * LTV Monitor worker: a shallow embedding and its properties

    The worker (a Hono application with a scheduled handler) evaluates a list
    of lending positions, flags those whose loan-to-value ratio exceeds 85
    percent and sends one alert per flagged position through a Telegram bot
    and through Twilio SMS.

    The embedding follows the source function by function:
    - JavaScript strings are sequences of UTF-16 code units;
    - JavaScript Numbers are IEEE 754 binary64 values, taken from the
      standard library's executable specification [SpecFloat];
    - an [async] function is a tree of its suspension points, and the
      event loop is a transition function driven by the environment, which
      chooses which outstanding provider call settles next and how. *)

From Stdlib Require Import ZArith NArith Lia Bool String Ascii.
From Stdlib Require Import Floats.SpecFloat.
From stdpp Require Import base list.

Local Open Scope N_scope.

(** ** Strings *)

(** A JavaScript string value: its UTF-16 code units. *)
Definition jsstring : Type := list N.

Module Utf8.

(** Source text is UTF-8; a literal of the source denotes the UTF-16
    encoding of its code points. [decode] reads the code points of a byte
    sequence, [utf16] encodes one code point. *)
Definition cont (b : N) : N := N.land b 63.

Fixpoint decode (bs : list N) : list N :=
  match bs with
  | [] => []
  | b0 :: r0 =>
    if b0 <? 128 then b0 :: decode r0
    else match r0 with
    | [] => []
    | b1 :: r1 =>
      if b0 <? 224 then
        (N.shiftl (N.land b0 31) 6 + cont b1) :: decode r1
      else match r1 with
      | [] => []
      | b2 :: r2 =>
        if b0 <? 240 then
          (N.shiftl (N.land b0 15) 12 + N.shiftl (cont b1) 6 + cont b2)
            :: decode r2
        else match r2 with
        | [] => []
        | b3 :: r3 =>
          (N.shiftl (N.land b0 7) 18 + N.shiftl (cont b1) 12
           + N.shiftl (cont b2) 6 + cont b3) :: decode r3
        end
      end
    end
  end.

Definition utf16 (cp : N) : list N :=
  if cp <? 65536 then [cp]
  else let c := cp - 65536 in [55296 + N.shiftr c 10; 56320 + N.land c 1023].

End Utf8.

(** [lit "..."] is the string value of a source literal. *)
Definition lit (s : string) : jsstring :=
  concat (map Utf8.utf16 (Utf8.decode (map N_of_ascii (list_ascii_of_string s)))).

(** [String.prototype.substring(start, end)] and [substring(start)] for
    non-negative integer arguments: both are clamped to the length and
    swapped when [start > end]. *)
Definition substring (s : jsstring) (from to : nat) : jsstring :=
  let a := Nat.min from (length s) in
  let b := Nat.min to (length s) in
  take (Nat.max a b - Nat.min a b)%nat (drop (Nat.min a b) s).

Definition substring_from (s : jsstring) (from : nat) : jsstring :=
  substring s from (length s).

Arguments lit : simpl never.

Fixpoint starts_with (p s : jsstring) : bool :=
  match p, s with
  | [], _ => true
  | c :: p', d :: s' => (c =? d) && starts_with p' s'
  | _ :: _, [] => false
  end.

(** Decimal digits of a non-negative integer, most significant first
    (["0"] for zero). [fuel] bounds the number of digits. *)
Fixpoint decimal_digits_aux (fuel : nat) (n : N) (acc : jsstring) : jsstring :=
  match fuel with
  | O => acc
  | S fuel' =>
    let acc' := (48 + n mod 10) :: acc in
    if n / 10 =? 0 then acc' else decimal_digits_aux fuel' (n / 10) acc'
  end.

Definition decimal_digits (n : N) : jsstring :=
  decimal_digits_aux (S (N.to_nat (N.log2 n))) n [].

(** ** Numbers *)

Module Number.

Definition number : Type := spec_float.

Definition prec : Z := 53.
Definition emax : Z := 1024.

Definition NaN : number := S754_nan.
Definition Infinity : number := S754_infinity false.

(** The Number value of an integer: round to nearest, ties to even. *)
Definition of_Z (z : Z) : number := binary_normalize prec emax z 0 false.

(** [x / y], [x * y], [x > y] and [x === y] on Numbers. *)
Definition div (x y : number) : number := SFdiv prec emax x y.
Definition mul (x y : number) : number := SFmul prec emax x y.
Definition gt (x y : number) : bool := SFltb y x.
Definition strict_eq (x y : number) : bool := SFeqb x y.

(** [Object.is(x, y)] on Numbers: the same value, telling [+0] from [-0]. *)
Definition same_value (x y : number) : bool :=
  match x, y with
  | S754_nan, S754_nan => true
  | S754_zero a, S754_zero b => Bool.eqb a b
  | S754_infinity a, S754_infinity b => Bool.eqb a b
  | S754_finite a m e, S754_finite b m' e' =>
    Bool.eqb a b && (m =? m')%positive && (e =? e')%Z
  | _, _ => false
  end.

Definition is_NaN (x : number) : bool :=
  match x with S754_nan => true | _ => false end.

Definition is_finite (x : number) : bool :=
  match x with S754_zero _ | S754_finite _ _ _ => true | _ => false end.

(** *** parseFloat *)

Definition is_digit (c : N) : bool := (48 <=? c) && (c <=? 57).

(** WhiteSpace and LineTerminator code points, stripped by [TrimString]. *)
Definition is_StrWhiteSpaceChar (c : N) : bool :=
  bool_decide (c ∈ [9; 10; 11; 12; 13; 32; 160; 5760; 8232; 8233; 8239;
                    8287; 12288; 65279])
  || ((8192 <=? c) && (c <=? 8202)).

Fixpoint trim_start (s : jsstring) : jsstring :=
  match s with
  | c :: r => if is_StrWhiteSpaceChar c then trim_start r else s
  | [] => []
  end.

(** The longest run of decimal digits at the head of [s], and what follows. *)
Fixpoint span_digits (s : jsstring) : jsstring * jsstring :=
  match s with
  | c :: r =>
    if is_digit c then let '(ds, rest) := span_digits r in (c :: ds, rest)
    else ([], s)
  | [] => ([], [])
  end.

Definition digits_value (ds : jsstring) : Z :=
  fold_left (fun acc c => 10 * acc + Z.of_N (c - 48))%Z ds 0%Z.

(** A parsed [StrDecimalLiteral]. *)
Variant literal :=
  | Lit_Infinity (neg : bool)
  | Lit_Decimal (neg : bool) (int_digits frac_digits : jsstring) (exp : Z).

(** [ExponentPart(opt)] at the head of [s]: its value (0 when there is
    none) and what follows it. An [e] that is not followed by an optionally
    signed digit is not part of the literal. *)
Definition scan_exponent (s : jsstring) : Z * jsstring :=
  match s with
  | c :: r =>
    if (c =? 101) || (c =? 69) then
      match r with
      | sg :: r' =>
        if (sg =? 43) || (sg =? 45) then
          match span_digits r' with
          | ([], _) => (0%Z, s)
          | (ds, rest) =>
            (if sg =? 45 then (- digits_value ds)%Z else digits_value ds, rest)
          end
        else
          match span_digits r with
          | ([], _) => (0%Z, s)
          | (ds, rest) => (digits_value ds, rest)
          end
      | [] => (0%Z, s)
      end
    else (0%Z, s)
  | [] => (0%Z, s)
  end.

(** The longest prefix of [s] that is a [StrUnsignedDecimalLiteral]:
    [Infinity], or digits with an optional fraction (one of the two digit
    runs may be empty, not both) and an optional exponent. *)
Definition scan_unsigned (neg : bool) (s : jsstring)
  : option (literal * jsstring) :=
  if starts_with (lit "Infinity") s
  then Some (Lit_Infinity neg, drop 8 s)
  else
    let '(ip, r) := span_digits s in
    match r with
    | c :: r' =>
      if c =? 46 then
        let '(fp, r'') := span_digits r' in
        match ip, fp with
        | [], [] => None
        | _, _ =>
          let '(e, rest) := scan_exponent r'' in
          Some (Lit_Decimal neg ip fp e, rest)
        end
      else
        match ip with
        | [] => None
        | _ =>
          let '(e, rest) := scan_exponent r in
          Some (Lit_Decimal neg ip [] e, rest)
        end
    | [] =>
      match ip with
      | [] => None
      | _ => Some (Lit_Decimal neg ip [] 0%Z, [])
      end
    end.

(** The longest prefix of [s] that is a [StrDecimalLiteral]. *)
Definition scan_literal (s : jsstring) : option (literal * jsstring) :=
  match s with
  | c :: r =>
    if c =? 43 then scan_unsigned false r
    else if c =? 45 then scan_unsigned true r
    else scan_unsigned false s
  | [] => None
  end.

(** The Number value of the decimal [m * 10^e10], correctly rounded. *)
Definition of_decimal (m e10 : Z) : number :=
  match m with
  | Zpos p =>
    if (0 <=? e10)%Z then of_Z (m * 10 ^ e10)
    else div (S754_finite false p 0)
             (S754_finite false (Z.to_pos (10 ^ (- e10))) 0)
  | _ => S754_zero false
  end.

Definition literal_value (l : literal) : number :=
  match l with
  | Lit_Infinity neg => S754_infinity neg
  | Lit_Decimal neg ip fp e =>
    let v := of_decimal (digits_value (ip ++ fp)) (e - Z.of_nat (length fp)) in
    if neg then SFopp v else v
  end.

Definition parseFloat (s : jsstring) : number :=
  match scan_literal (trim_start s) with
  | Some (l, _) => literal_value l
  | None => NaN
  end.

(** *** Number.prototype.toFixed *)

(** The mathematical value of a finite Number is [m * 2^e]. *)
Definition pow2 (e : Z) : N := Z.to_N (2 ^ e).

(** [ge_integer m e k]: [m * 2^e >= k], exactly. *)
Definition ge_integer (m : positive) (e : Z) (k : N) : bool :=
  if (0 <=? e)%Z then k <=? Npos m * pow2 e
  else k * pow2 (- e) <=? Npos m.

(** The integer [n] for which [n / 10^f - m * 2^e] is as close to zero as
    possible, the larger one when there are two. *)
Definition nearest_scaled (m : positive) (e : Z) (f : nat) : N :=
  let scale := 10 ^ N.of_nat f in
  if (0 <=? e)%Z then Npos m * pow2 e * scale
  else (2 * Npos m * scale + pow2 (- e)) / (2 * pow2 (- e)).

(** The digits of [n] with a decimal point before the last [f] of them,
    padded with zeros on the left to at least [f + 1] digits. *)
Definition fixed_point (n : N) (f : nat) : jsstring :=
  let m := decimal_digits n in
  match f with
  | O => m
  | _ =>
    let m := replicate (S f - length m) 48 ++ m in
    let k := length m in
    take (k - f) m ++ 46 :: drop (k - f) m
  end.

(** [Number::toString] on a finite value [X >= 10^21], which is an integer
    and is written in exponent notation: the digits [s] are the fewest
    whose decimal [s * 10^(n-k)] still rounds to the same Number, and among
    those the closest to [X]. *)
Definition digits_candidate (x : number) (X : N) (k n : nat) : option N :=
  let p := 10 ^ N.of_nat (n - k) in
  let ok s :=
    (10 ^ N.of_nat (k - 1) <=? s) && (s <? 10 ^ N.of_nat k)
    && same_value (of_Z (Z.of_N (s * p))) x in
  let s0 := X / p in
  let s1 := s0 + 1 in
  match ok s0, ok s1 with
  | true, true =>
    let d0 := X - s0 * p in
    let d1 := s1 * p - X in
    Some (if d0 <? d1 then s0 else if d1 <? d0 then s1
          else if N.even s0 then s0 else s1)
  | true, false => Some s0
  | false, true => Some s1
  | false, false => None
  end.

Fixpoint shortest_digits (fuel k : nat) (x : number) (X : N) (nd : nat)
  : N * nat :=
  match fuel with
  | O => (X, nd)
  | S fuel' =>
    match digits_candidate x X k nd, digits_candidate x X k (S nd) with
    | Some s, _ => (s, nd)
    | None, Some s => (s, S nd)
    | None, None => shortest_digits fuel' (S k) x X nd
    end
  end.

Definition toString_exponent (x : number) (X : N) : jsstring :=
  let nd := length (decimal_digits X) in
  let '(s, n) := shortest_digits nd 1 x X nd in
  let ds := decimal_digits s in
  let e := decimal_digits (N.of_nat (n - 1)) in
  match ds with
  | [d] => d :: lit "e+" ++ e
  | d :: ds' => d :: 46 :: ds' ++ lit "e+" ++ e
  | [] => []
  end.

(** [x.toFixed(f)] for [0 <= f <= 100]. *)
Definition toFixed (x : number) (f : nat) : jsstring :=
  match x with
  | S754_nan => lit "NaN"
  | S754_infinity false => lit "Infinity"
  | S754_infinity true => lit "-Infinity"
  | S754_zero _ => fixed_point 0 f
  | S754_finite neg m e =>
    (if neg then lit "-" else []) ++
    (if ge_integer m e (10 ^ 21)
     then toString_exponent (S754_finite false m e) (Npos m * pow2 e)
     else fixed_point (nearest_scaled m e f) f)
  end.

End Number.

(** ** Built-ins used by the senders *)

Definition is_lead_surrogate (c : N) : bool := (55296 <=? c) && (c <=? 56319).
Definition is_trail_surrogate (c : N) : bool := (56320 <=? c) && (c <=? 57343).

(** Conversion to a [USVString], as [URLSearchParams.append] applies to its
    arguments: an unpaired surrogate becomes U+FFFD. *)
Fixpoint to_USVString (s : jsstring) : jsstring :=
  match s with
  | [] => []
  | c :: r =>
    if is_lead_surrogate c then
      match r with
      | d :: r' =>
        if is_trail_surrogate d then c :: d :: to_USVString r'
        else 65533 :: to_USVString r
      | [] => [65533]
      end
    else if is_trail_surrogate c then 65533 :: to_USVString r
    else c :: to_USVString r
  end.

Module Base64.

Definition char (i : N) : N :=
  if i <? 26 then 65 + i
  else if i <? 52 then 97 + (i - 26)
  else if i <? 62 then 48 + (i - 52)
  else if i =? 62 then 43 else 47.

Fixpoint encode (bs : list N) : jsstring :=
  match bs with
  | [] => []
  | [a] =>
    [char (N.shiftr a 2); char (N.shiftl (N.land a 3) 4); 61; 61]
  | [a; b] =>
    [char (N.shiftr a 2);
     char (N.lor (N.shiftl (N.land a 3) 4) (N.shiftr b 4));
     char (N.shiftl (N.land b 15) 2); 61]
  | a :: b :: c :: r =>
    char (N.shiftr a 2)
    :: char (N.lor (N.shiftl (N.land a 3) 4) (N.shiftr b 4))
    :: char (N.lor (N.shiftl (N.land b 15) 2) (N.shiftr c 6))
    :: char (N.land c 63) :: encode r
  end.

End Base64.

(** A string all of whose code units are at most U+00FF. *)
Definition is_latin1 (s : jsstring) : bool := forallb (fun c => c <=? 255) s.

Module JSON.

Definition hex_digit (d : N) : N := if d <? 10 then 48 + d else 97 + (d - 10).

(** [UnicodeEscape]: a backslash, [u] and four lowercase hex digits. *)
Definition unicode_escape (c : N) : jsstring :=
  [92; 117; hex_digit (N.shiftr c 12 mod 16); hex_digit (N.shiftr c 8 mod 16);
   hex_digit (N.shiftr c 4 mod 16); hex_digit (c mod 16)].

Definition escape_unit (c : N) : jsstring :=
  if c =? 8 then lit "\b" else if c =? 9 then lit "\t"
  else if c =? 10 then lit "\n" else if c =? 12 then lit "\f"
  else if c =? 13 then lit "\r" else if c =? 34 then [92; 34]
  else if c =? 92 then [92; 92]
  else if c <? 32 then unicode_escape c
  else [c].

Fixpoint quote_body (s : jsstring) : jsstring :=
  match s with
  | [] => []
  | c :: r =>
    if is_lead_surrogate c then
      match r with
      | d :: r' =>
        if is_trail_surrogate d then c :: d :: quote_body r'
        else unicode_escape c ++ quote_body r
      | [] => unicode_escape c
      end
    else if is_trail_surrogate c then unicode_escape c ++ quote_body r
    else escape_unit c ++ quote_body r
  end.

(** [QuoteJSONString]. *)
Definition quote (s : jsstring) : jsstring := 34 :: quote_body s ++ [34].

Fixpoint members (props : list (jsstring * jsstring)) : jsstring :=
  match props with
  | [] => []
  | [(k, v)] => quote k ++ 58 :: quote v
  | (k, v) :: rest => quote k ++ 58 :: quote v ++ 44 :: members rest
  end.

(** [JSON.stringify] of an object whose property values are strings. *)
Definition stringify (props : list (jsstring * jsstring)) : jsstring :=
  123 :: members props ++ [125].

End JSON.

(** ** Effects *)

(** A thrown value: the exception of [btoa], or a failure reported by the
    environment (a rejected [fetch] or [text()] promise). *)
Variant thrown :=
  | InvalidCharacterError
  | Failure (reason : jsstring).

Variant console_arg :=
  | Str (s : jsstring)
  | Err (e : thrown).

Variant console_level := Log | Warn | Error.

Record console_call := { level : console_level; args : list console_arg }.

Variant BodyInit :=
  | Body_string (s : jsstring)
  | Body_URLSearchParams (params : list (jsstring * jsstring)).

Record RequestInit := {
  method : jsstring;
  headers : list (jsstring * jsstring);
  body : BodyInit
}.

Record Request := { url : jsstring; init : RequestInit }.

Record Response := { status : N }.

(** [response.ok]: the status is in the range 200-299. *)
Definition ok (r : Response) : bool := (200 <=? status r) && (status r <=? 299).

(** How a promise settles: fulfilled with a value or rejected. *)
Definition settled (A : Type) : Type := A + thrown.

(** A promise returned by a call of an [async] function, named by its
    position among the calls made so far. *)
Abbreviation promise := nat (only parsing).

(** The body of an [async] function: what it does up to each suspension
    point, and how it goes on once the awaited promise has settled.
    [Call f k] calls the async function [f], which runs at once up to its
    first suspension point, and goes on with the promise it returned;
    [Await_fetch rq k] is [await fetch(rq)], [Await_text rs k] is
    [await rs.text()], [Await_all ps k] is [await Promise.all(ps)]. *)
Inductive async (A : Type) : Type :=
  | Return (a : A)
  | Throw (e : thrown)
  | Console (c : console_call) (k : async A)
  | Call (callee : async unit) (k : promise -> async A)
  | Await_fetch (rq : Request) (k : settled Response -> async A)
  | Await_text (rs : Response) (k : settled jsstring -> async A)
  | Await_all (ps : list promise) (k : settled unit -> async A).

Arguments Return {A} a.
Arguments Throw {A} e.
Arguments Console {A} c k.
Arguments Call {A} callee k.
Arguments Await_fetch {A} rq k.
Arguments Await_text {A} rs k.
Arguments Await_all {A} ps k.

Fixpoint bind {A B : Type} (m : async A) (f : A -> async B) : async B :=
  match m with
  | Return a => f a
  | Throw e => Throw e
  | Console c k => Console c (bind k f)
  | Call callee k => Call callee (fun p => bind (k p) f)
  | Await_fetch rq k => Await_fetch rq (fun r => bind (k r) f)
  | Await_text rs k => Await_text rs (fun r => bind (k r) f)
  | Await_all ps k => Await_all ps (fun r => bind (k r) f)
  end.

(** [try { body } catch (e) { handler e }]. *)
Fixpoint try_catch {A : Type} (body : async A) (handler : thrown -> async A)
  : async A :=
  match body with
  | Return a => Return a
  | Throw e => handler e
  | Console c k => Console c (try_catch k handler)
  | Call callee k => Call callee (fun p => try_catch (k p) handler)
  | Await_fetch rq k => Await_fetch rq (fun r => try_catch (k r) handler)
  | Await_text rs k => Await_text rs (fun r => try_catch (k r) handler)
  | Await_all ps k => Await_all ps (fun r => try_catch (k r) handler)
  end.

Notation "'let!' x := m 'in' f" := (bind m (fun x => f))
  (at level 10, x name, m at level 100, f at level 200).
Notation "'do!' m 'in' f" := (bind m (fun _ => f))
  (at level 10, m at level 100, f at level 200).

(** [await p] throws when [p] rejects. *)
Definition resume {A : Type} (r : settled A) : async A :=
  match r with inl v => Return v | inr e => Throw e end.

Definition fetch (u : jsstring) (i : RequestInit) : async Response :=
  Await_fetch {| url := u; init := i |} resume.

Definition text (rs : Response) : async jsstring := Await_text rs resume.

Definition call (f : async unit) : async promise := Call f Return.

Definition Promise_all (ps : list promise) : async unit := Await_all ps resume.

(** [for (const x of xs) { body }], threading the variables the body
    updates. *)
Fixpoint for_of {X S : Type} (xs : list X) (body : X -> S -> async S) (s : S)
  : async S :=
  match xs with
  | [] => Return s
  | x :: rest => let! s' := body x s in for_of rest body s'
  end.

Definition console_log (a : list console_arg) : async unit :=
  Console {| level := Log; args := a |} (Return tt).
Definition console_warn (a : list console_arg) : async unit :=
  Console {| level := Warn; args := a |} (Return tt).
Definition console_error (a : list console_arg) : async unit :=
  Console {| level := Error; args := a |} (Return tt).

(** [btoa]: throws unless every code unit is at most U+00FF. *)
Definition btoa (s : jsstring) : async jsstring :=
  if is_latin1 s then Return (Base64.encode s) else Throw InvalidCharacterError.

(** ** Configuration (env.d.ts) *)

(** A binding that was never set reads as [undefined]: [None]. *)
Record EnvBindings := {
  TELEGRAM_BOT_TOKEN : option jsstring;
  TELEGRAM_CHAT_ID : option jsstring;
  TWILIO_ACCOUNT_SID : option jsstring;
  TWILIO_AUTH_TOKEN : option jsstring;
  TWILIO_MESSAGING_SERVICE_SID : option jsstring;
  TWILIO_TO_NUMBER : option jsstring
}.

(** [!!v]: neither [undefined] nor the empty string. *)
Definition truthy (v : option jsstring) : bool :=
  match v with Some (_ :: _) => true | _ => false end.

(** A binding inside a template literal or converted to a string. *)
Definition ToString (v : option jsstring) : jsstring :=
  match v with Some s => s | None => lit "undefined" end.

(** ** Senders *)

Definition sendTelegramAlert (env : EnvBindings) (text_ : jsstring)
  : async unit :=
  if negb (truthy (TELEGRAM_BOT_TOKEN env)) || negb (truthy (TELEGRAM_CHAT_ID env))
  then
    console_warn
      [Str (lit "[Telegram] ⚠️ Missing TELEGRAM_BOT_TOKEN or TELEGRAM_CHAT_ID")]
  else
    let url :=
      lit "https://api.telegram.org/bot" ++ ToString (TELEGRAM_BOT_TOKEN env)
      ++ lit "/sendMessage" in
    try_catch
      (let! response := fetch url {|
           method := lit "POST";
           headers := [(lit "Content-Type", lit "application/json")];
           body := Body_string (JSON.stringify
             [(lit "chat_id", ToString (TELEGRAM_CHAT_ID env));
              (lit "text", lit "🚨 " ++ text_);
              (lit "parse_mode", lit "HTML")]) |} in
       if ok response then
         console_log [Str (lit "[Telegram] ✅ Alert sent successfully")]
       else
         let! errorData := text response in
         console_error [Str (lit "[Telegram] ❌ Failed to send:"); Str errorData])
      (fun e => console_error [Str (lit "[Telegram] Error:"); Err e]).

(** [URLSearchParams.prototype.append]. *)
Definition append (params : list (jsstring * jsstring)) (name value : jsstring)
  : list (jsstring * jsstring) :=
  params ++ [(to_USVString name, to_USVString value)].

Definition sendTwilioSMS (env : EnvBindings) (messageText : jsstring)
  : async unit :=
  if negb (truthy (TWILIO_ACCOUNT_SID env)) || negb (truthy (TWILIO_AUTH_TOKEN env))
     || negb (truthy (TWILIO_TO_NUMBER env))
  then
    console_warn [Str (lit "[Twilio] ⚠️ Missing Twilio credentials or phone number")]
  else
    let url :=
      lit "https://api.twilio.com/2010-04-01/Accounts/"
      ++ ToString (TWILIO_ACCOUNT_SID env) ++ lit "/Messages.json" in
    let formData := [] in
    let formData := append formData (lit "To") (ToString (TWILIO_TO_NUMBER env)) in
    let formData :=
      append formData (lit "MessagingServiceSid")
             (ToString (TWILIO_MESSAGING_SERVICE_SID env)) in
    let formData := append formData (lit "Body") (lit "🚨 " ++ messageText) in
    let! auth := btoa (ToString (TWILIO_ACCOUNT_SID env) ++ lit ":"
                       ++ ToString (TWILIO_AUTH_TOKEN env)) in
    try_catch
      (let! response := fetch url {|
           method := lit "POST";
           headers :=
             [(lit "Authorization", lit "Basic " ++ auth);
              (lit "Content-Type", lit "application/x-www-form-urlencoded")];
           body := Body_URLSearchParams formData |} in
       if ok response then
         console_log [Str (lit "[Twilio] ✅ SMS sent successfully")]
       else
         let! errorData := text response in
         console_error [Str (lit "[Twilio] ❌ Failed to send SMS:"); Str errorData])
      (fun e => console_error [Str (lit "[Twilio] Error:"); Err e]).

(** ** The monitoring pipeline *)

Module AaveUser.
Record t := {
  id : jsstring;
  totalCollateralBase : jsstring;
  totalDebtBase : jsstring
}.
End AaveUser.

Import Number.

(** [(debt / collateral) * 100] for the two parsed fields. *)
Definition ltv_of (user : AaveUser.t) : number :=
  let collateral := parseFloat (AaveUser.totalCollateralBase user) in
  let debt := parseFloat (AaveUser.totalDebtBase user) in
  mul (div debt collateral) (of_Z 100).

Definition shortAddr_of (user : AaveUser.t) : jsstring :=
  substring (AaveUser.id user) 0 6 ++ lit "..."
  ++ substring_from (AaveUser.id user) 38.

Definition msg_of (user : AaveUser.t) : jsstring :=
  lit "High LTV Alert! Wallet " ++ shortAddr_of user ++ lit " is at "
  ++ toFixed (ltv_of user) 2 ++ lit "% LTV.".

(** One iteration of the loop over the users; [alertPromises] is the array
    the iteration pushes to. *)
Definition check_user (env : EnvBindings) (user : AaveUser.t)
    (alertPromises : list promise) : async (list promise) :=
  let collateral := parseFloat (AaveUser.totalCollateralBase user) in
  let debt := parseFloat (AaveUser.totalDebtBase user) in
  if strict_eq collateral (of_Z 0) then Return alertPromises
  else
    let ltv := mul (div debt collateral) (of_Z 100) in
    if gt ltv (of_Z 85) then
      do! console_log
            [Str (lit "[Alert] ⚠️ High LTV found: " ++ AaveUser.id user
                  ++ lit " at " ++ toFixed ltv 2 ++ lit "%")] in
      let shortAddr :=
        substring (AaveUser.id user) 0 6 ++ lit "..."
        ++ substring_from (AaveUser.id user) 38 in
      let msg :=
        lit "High LTV Alert! Wallet " ++ shortAddr ++ lit " is at "
        ++ toFixed ltv 2 ++ lit "% LTV." in
      let! p := call (sendTelegramAlert env msg) in
      let alertPromises := alertPromises ++ [p] in
      let! p := call (sendTwilioSMS env msg) in
      let alertPromises := alertPromises ++ [p] in
      Return alertPromises
    else Return alertPromises.

(** The body of [checkHealthFactors] from [try] on, for a given list of
    users (the source binds [users] to its mock data). *)
Definition checkHealthFactors_on (users : list AaveUser.t) (env : EnvBindings)
  : async unit :=
  try_catch
    (do! console_log
           [Str (lit "[Monitor] 🔍 Using MOCK data - "
                 ++ decimal_digits (N.of_nat (length users))
                 ++ lit " test borrowers.")] in
     let! alertPromises := for_of users (check_user env) [] in
     do! Promise_all alertPromises in
     if (length alertPromises =? 0)%nat then
       console_log [Str (lit "[Monitor] ✅ No high LTV positions detected.")]
     else Return tt)
    (fun error =>
       console_error [Str (lit "[Error] Failed to fetch or process data:");
                      Err error]).

Definition mockUsers : list AaveUser.t :=
  [ {| AaveUser.id := lit "0x1234567890abcdef1234567890abcdef12345678";
       AaveUser.totalCollateralBase := lit "1000000";
       AaveUser.totalDebtBase := lit "900000" |};
    {| AaveUser.id := lit "0xabcdef1234567890abcdef1234567890abcdef12";
       AaveUser.totalCollateralBase := lit "500000";
       AaveUser.totalDebtBase := lit "450000" |} ].

Definition checkHealthFactors (env : EnvBindings) : async unit :=
  checkHealthFactors_on mockUsers env.

(** ** Routes and the scheduled handler *)

(** [c.json(obj)]: status 200 and the serialized object. *)
Record http_response := { http_status : N; http_body : jsstring }.

Definition json (props : list (jsstring * jsstring)) : http_response :=
  {| http_status := 200; http_body := JSON.stringify props |}.

Definition api_root : http_response :=
  json [(lit "name", lit "LTV Monitor"); (lit "status", lit "running")].

Definition api_test (env : EnvBindings) : async http_response :=
  do! console_log [Str (lit "[Manual] 🔧 Manual test triggered via API")] in
  do! checkHealthFactors env in
  Return (json [(lit "message",
                 lit "Manual check completed. Check logs with `npm run tail`")]).

(** The object passed to [c.json] by the health route. *)
Record health := {
  health_status : jsstring;
  timestamp : jsstring;
  telegram : bool;
  twilio : bool
}.

Definition api_health (env : EnvBindings) (now : jsstring) : health :=
  {| health_status := lit "healthy";
     timestamp := now;
     telegram := truthy (TELEGRAM_BOT_TOKEN env) && truthy (TELEGRAM_CHAT_ID env);
     twilio := truthy (TWILIO_ACCOUNT_SID env) && truthy (TWILIO_AUTH_TOKEN env)
               && truthy (TWILIO_MESSAGING_SERVICE_SID env) |}.

(** The work the scheduled handler hands to [ctx.waitUntil]; the handler
    itself returns without awaiting it. *)
Definition scheduled (env : EnvBindings) : async unit :=
  do! console_log
        [Str (lit "[Cron] ⏰ Scheduled event triggered. Checking health factors...")] in
  checkHealthFactors env.

(** ** The event loop *)

(** A function that has run up to a suspension point: settled, or parked
    with the continuation to run once what it awaits has settled. *)
Variant task (A : Type) : Type :=
  | Settled (r : settled A)
  | On_fetch (k : settled Response -> async A)
  | On_text (k : settled jsstring -> async A)
  | On_all (ps : list promise) (k : settled unit -> async A).

Arguments Settled {A} r.
Arguments On_fetch {A} k.
Arguments On_text {A} k.
Arguments On_all {A} ps k.

(** What the run has produced so far: the console output, the requests
    handed to [fetch], and the state of every promise returned by a call. *)
Record state := {
  console : list console_call;
  network : list Request;
  promises : list (task unit)
}.

Definition initial : state := {| console := []; network := []; promises := [] |}.

Definition log (c : console_call) (s : state) : state :=
  {| console := console s ++ [c]; network := network s; promises := promises s |}.

Definition issue (rq : Request) (s : state) : state :=
  {| console := console s; network := network s ++ [rq]; promises := promises s |}.

Definition push (t : task unit) (s : state) : state :=
  {| console := console s; network := network s; promises := promises s ++ [t] |}.

Definition set_promise (i : promise) (t : task unit) (s : state) : state :=
  {| console := console s; network := network s;
     promises := <[i := t]> (promises s) |}.

Definition is_settled {A : Type} (t : task A) : bool :=
  match t with Settled _ => true | _ => false end.

(** The first rejection among the promises [ps], in their order. *)
Fixpoint first_rejection (pool : list (task unit)) (ps : list promise)
  : option thrown :=
  match ps with
  | [] => None
  | p :: rest =>
    match pool !! p with
    | Some (Settled (inr e)) => Some e
    | _ => first_rejection pool rest
    end
  end.

Definition fulfilled (pool : list (task unit)) (p : promise) : bool :=
  match pool !! p with Some (Settled (inl _)) => true | _ => false end.

(** The state of [Promise.all(ps)]: rejected as soon as one of [ps] is,
    fulfilled once all of them are, pending otherwise. *)
Definition all_state (pool : list (task unit)) (ps : list promise)
  : option (settled unit) :=
  match first_rejection pool ps with
  | Some e => Some (inr e)
  | None => if forallb (fulfilled pool) ps then Some (inl tt) else None
  end.

(** Run a function body until it suspends or settles. *)
Fixpoint run_sync {A : Type} (m : async A) (s : state) : task A * state :=
  match m with
  | Return a => (Settled (inl a), s)
  | Throw e => (Settled (inr e), s)
  | Console c k => run_sync k (log c s)
  | Call callee k =>
    let '(t, s') := run_sync callee s in
    run_sync (k (length (promises s'))) (push t s')
  | Await_fetch rq k => (On_fetch k, issue rq s)
  | Await_text rs k => (On_text k, s)
  | Await_all ps k =>
    match all_state (promises s) ps with
    | Some r => run_sync (k r) s
    | None => (On_all ps k, s)
    end
  end.

(** A run of a top-level function [main]: its own state and the rest. *)
Record config (R : Type) := { main : task R; rest : state }.
Arguments main {R} c.
Arguments rest {R} c.

Definition start {R : Type} (m : async R) : config R :=
  let '(t, s) := run_sync m initial in {| main := t; rest := s |}.

(** Resume [main] if the [Promise.all] it awaits has settled. *)
Definition poll {R : Type} (c : config R) : config R :=
  match main c with
  | On_all ps k =>
    match all_state (promises (rest c)) ps with
    | Some r => let '(t, s) := run_sync (k r) (rest c) in {| main := t; rest := s |}
    | None => c
    end
  | _ => c
  end.

(** The environment settles what promise [i] awaits. *)
Variant delivery :=
  | Fetch_settles (i : promise) (r : settled Response)
  | Text_settles (i : promise) (r : settled jsstring).

Definition resume_promise {R : Type} (i : promise) (m : async unit) (c : config R)
  : config R :=
  let '(t, s) := run_sync m (rest c) in
  poll {| main := main c; rest := set_promise i t s |}.

Definition step {R : Type} (d : delivery) (c : config R) : option (config R) :=
  match d with
  | Fetch_settles i r =>
    match promises (rest c) !! i with
    | Some (On_fetch k) => Some (resume_promise i (k r) c)
    | _ => None
    end
  | Text_settles i r =>
    match promises (rest c) !! i with
    | Some (On_text k) => Some (resume_promise i (k r) c)
    | _ => None
    end
  end.

Fixpoint run {R : Type} (ds : list delivery) (c : config R) : option (config R) :=
  match ds with
  | [] => Some c
  | d :: ds' => match step d c with Some c' => run ds' c' | None => None end
  end.

(** ** Observations *)

(** The promises a piece of code adds to the pool when run in state [s]. *)
Definition new_promises {A : Type} (m : async A) (s : state) : list (task unit) :=
  drop (length (promises s)) (promises (snd (run_sync m s))).

(** The requests a piece of code hands to [fetch] when run in state [s]. *)
Definition new_requests {A : Type} (m : async A) (s : state) : list Request :=
  drop (length (network s)) (network (snd (run_sync m s))).

(** A position is flagged when the loop's two tests let it through. *)
Definition flagged (user : AaveUser.t) : bool :=
  negb (strict_eq (parseFloat (AaveUser.totalCollateralBase user)) (of_Z 0))
  && gt (ltv_of user) (of_Z 85).

(** The state of the promise a sender returns to its caller. *)
Definition promise_of (m : async unit) : task unit := fst (run_sync m initial).

(** The promises the loop leaves in the pool: for each flagged position,
    in order, the one returned by each sender. *)
Definition alert_tasks (env : EnvBindings) (users : list AaveUser.t)
  : list (task unit) :=
  flat_map (fun u => [promise_of (sendTelegramAlert env (msg_of u));
                      promise_of (sendTwilioSMS env (msg_of u))])
           (filter (fun u => flagged u = true) users).

(** The chat-bot channel has its token and chat id. *)
Definition telegram_configured (env : EnvBindings) : bool :=
  truthy (TELEGRAM_BOT_TOKEN env) && truthy (TELEGRAM_CHAT_ID env).

(** The SMS sender finds the three bindings it checks. *)
Definition twilio_configured (env : EnvBindings) : bool :=
  truthy (TWILIO_ACCOUNT_SID env) && truthy (TWILIO_AUTH_TOKEN env)
  && truthy (TWILIO_TO_NUMBER env).

(** The credentials the SMS sender passes to [btoa]. *)
Definition twilio_credentials (env : EnvBindings) : jsstring :=
  ToString (TWILIO_ACCOUNT_SID env) ++ lit ":" ++ ToString (TWILIO_AUTH_TOKEN env).

(** Every path of [m] makes no call, awaits no promise of a call, and
    suspends at most [n] times. *)
Inductive leaf {A : Type} : nat -> async A -> Prop :=
  | leaf_Return n a : leaf n (Return a)
  | leaf_Throw n e : leaf n (Throw e)
  | leaf_Console n c k : leaf n k -> leaf n (Console c k)
  | leaf_fetch n rq k : (forall r, leaf n (k r)) -> leaf (S n) (Await_fetch rq k)
  | leaf_text n rs k : (forall r, leaf n (k r)) -> leaf (S n) (Await_text rs k).

Definition task_leaf {A : Type} (n : nat) (t : task A) : Prop :=
  match t with
  | Settled _ => True
  | On_fetch k => exists n', n = S n' /\ forall r, leaf n' (k r)
  | On_text k => exists n', n = S n' /\ forall r, leaf n' (k r)
  | On_all _ _ => False
  end.

(** Every path of [m] ends by returning a value that satisfies [P]:
    nothing is thrown out of [m]. A call does not throw, whatever becomes
    of the promise it returns. *)
Inductive returns {A : Type} (P : A -> Prop) : async A -> Prop :=
  | returns_Return a : P a -> returns P (Return a)
  | returns_Console c k : returns P k -> returns P (Console c k)
  | returns_Call f k : (forall p, returns P (k p)) -> returns P (Call f k)
  | returns_fetch rq k : (forall r, returns P (k r)) -> returns P (Await_fetch rq k)
  | returns_text rs k : (forall r, returns P (k r)) -> returns P (Await_text rs k)
  | returns_all ps k : (forall r, returns P (k r)) -> returns P (Await_all ps k).

Definition task_returns {A : Type} (P : A -> Prop) (t : task A) : Prop :=
  match t with
  | Settled (inl a) => P a
  | Settled (inr _) => False
  | On_fetch k => forall r, returns P (k r)
  | On_text k => forall r, returns P (k r)
  | On_all _ k => forall r, returns P (k r)
  end.

(** The state of a top-level function that awaits nothing but all the
    promises of the pool at once, with only synchronous work after that. *)
Definition waiting_main {R : Type} (pool : list (task unit)) (t : task R) : Prop :=
  match t with
  | Settled _ => True
  | On_all ps k =>
    ps = seq 0 (length pool) /\ all_state pool ps = None /\ forall r, leaf 0 (k r)
  | _ => False
  end.

Definition invariant {R : Type} (c : config R) : Prop :=
  Forall (task_leaf 2) (promises (rest c))
  /\ waiting_main (promises (rest c)) (main c).

(** Nothing is left for the environment to settle. *)
Definition quiescent {R : Type} (c : config R) : Prop :=
  Forall (fun t => is_settled t = true) (promises (rest c)).

(** When no promise of the pool can reject, the top-level function is
    resumed only once all of them have settled. *)
Definition waits_for_all {R : Type} (c : config R) : Prop :=
  Forall (task_returns (fun _ => True)) (promises (rest c))
  /\ (is_settled (main c) = true -> quiescent c).

Definition reachable {R : Type} (m : async R) (c : config R) : Prop :=
  exists ds, run ds (start m) = Some c.

(** [s.includes(sub)]. *)
Fixpoint includes (s sub : jsstring) : bool :=
  starts_with sub s
  || match s with _ :: r => includes r sub | [] => false end.

(** A string that is, between optional white space, one decimal literal
    and nothing else. *)
Definition is_numeric_string (s : jsstring) : bool :=
  match scan_literal (trim_start s) with
  | Some (_, rest) => forallb is_StrWhiteSpaceChar rest
  | None => false
  end.

(** The string begins with a decimal literal: after an optional sign comes
    [Infinity], a digit, or a point and a digit. *)
Definition starts_unsigned (s : jsstring) : bool :=
  starts_with (lit "Infinity") s
  || match s with
     | c :: r =>
       is_digit c
       || ((c =? 46) && match r with d :: _ => is_digit d | [] => false end)
     | [] => false
     end.

Definition starts_number (s : jsstring) : bool :=
  match s with
  | c :: r => if (c =? 43) || (c =? 45) then starts_unsigned r else starts_unsigned s
  | [] => false
  end.

(** The rendering has digits, a point and exactly two more digits. *)
Definition two_decimals (s : jsstring) : Prop :=
  exists ip d1 d2,
    s = ip ++ [46; d1; d2] /\ ip <> [] /\ forallb is_digit (ip ++ [d1; d2]) = true.

(** Following the spec's words: the first six characters, an ellipsis and
    the last six characters of the identifier. *)
Definition first6_last6 (i : jsstring) : jsstring :=
  take 6 i ++ lit "..." ++ drop (length i - 6) i.

(** Following the spec's words: HTML-escaping of a text, the three
    characters that the chat-bot provider's HTML mode reserves. *)
Definition html_escape (s : jsstring) : jsstring :=
  flat_map (fun c => if c =? 38 then lit "&amp;"
                     else if c =? 60 then lit "&lt;"
                     else if c =? 62 then lit "&gt;" else [c]) s.

(** No unpaired surrogate. *)
Fixpoint well_formed (s : jsstring) : bool :=
  match s with
  | [] => true
  | c :: r =>
    if is_lead_surrogate c then
      match r with
      | d :: r' => is_trail_surrogate d && well_formed r'
      | [] => false
      end
    else negb (is_trail_surrogate c) && well_formed r
  end.

(** The request the chat-bot sender makes for [text_]. *)
Definition telegram_request (env : EnvBindings) (text_ : jsstring) : Request :=
  {| url := lit "https://api.telegram.org/bot" ++ ToString (TELEGRAM_BOT_TOKEN env)
            ++ lit "/sendMessage";
     init := {|
       method := lit "POST";
       headers := [(lit "Content-Type", lit "application/json")];
       body := Body_string (JSON.stringify
         [(lit "chat_id", ToString (TELEGRAM_CHAT_ID env));
          (lit "text", lit "🚨 " ++ text_);
          (lit "parse_mode", lit "HTML")]) |} |}.

(** The request the SMS sender makes for [messageText]. *)
Definition twilio_request (env : EnvBindings) (messageText : jsstring) : Request :=
  {| url := lit "https://api.twilio.com/2010-04-01/Accounts/"
            ++ ToString (TWILIO_ACCOUNT_SID env) ++ lit "/Messages.json";
     init := {|
       method := lit "POST";
       headers :=
         [(lit "Authorization",
           lit "Basic " ++ Base64.encode (twilio_credentials env));
          (lit "Content-Type", lit "application/x-www-form-urlencoded")];
       body := Body_URLSearchParams
         [(lit "To", to_USVString (ToString (TWILIO_TO_NUMBER env)));
          (lit "MessagingServiceSid",
           to_USVString (ToString (TWILIO_MESSAGING_SERVICE_SID env)));
          (lit "Body", to_USVString (lit "🚨 " ++ messageText))] |} |}.

(** The acknowledgement of the manual trigger. *)
Definition acknowledgement : http_response :=
  json [(lit "message",
         lit "Manual check completed. Check logs with `npm run tail`")].

(** Configurations used as examples: every binding set; the same with a
    character outside Latin-1 in the auth token; the same with an empty
    destination number. *)
Definition env_complete : EnvBindings :=
  {| TELEGRAM_BOT_TOKEN := Some (lit "123456:ABC");
     TELEGRAM_CHAT_ID := Some (lit "-1001");
     TWILIO_ACCOUNT_SID := Some (lit "AC0123");
     TWILIO_AUTH_TOKEN := Some (lit "s3cret");
     TWILIO_MESSAGING_SERVICE_SID := Some (lit "MG0123");
     TWILIO_TO_NUMBER := Some (lit "+15550100") |}.

Definition env_non_latin1_token : EnvBindings :=
  {| TELEGRAM_BOT_TOKEN := Some (lit "123456:ABC");
     TELEGRAM_CHAT_ID := Some (lit "-1001");
     TWILIO_ACCOUNT_SID := Some (lit "AC0123");
     TWILIO_AUTH_TOKEN := Some (lit "s3cr€t");
     TWILIO_MESSAGING_SERVICE_SID := Some (lit "MG0123");
     TWILIO_TO_NUMBER := Some (lit "+15550100") |}.

Definition env_no_to_number : EnvBindings :=
  {| TELEGRAM_BOT_TOKEN := Some (lit "123456:ABC");
     TELEGRAM_CHAT_ID := Some (lit "-1001");
     TWILIO_ACCOUNT_SID := Some (lit "AC0123");
     TWILIO_AUTH_TOKEN := Some (lit "s3cret");
     TWILIO_MESSAGING_SERVICE_SID := Some (lit "MG0123");
     TWILIO_TO_NUMBER := Some [] |}.

Definition position (i collateral debt : string) : AaveUser.t :=
  {| AaveUser.id := lit i;
     AaveUser.totalCollateralBase := lit collateral;
     AaveUser.totalDebtBase := lit debt |}.

(** Every path of [m] goes on without calling [fetch]. *)
Inductive quiet {A : Type} : async A -> Prop :=
  | quiet_Return a : quiet (Return a)
  | quiet_Throw e : quiet (Throw e)
  | quiet_Console c k : quiet k -> quiet (Console c k)
  | quiet_text rs k : (forall r, quiet (k r)) -> quiet (Await_text rs k).

(** Every path of [m] calls [fetch] at most once. *)
Inductive fetches_once {A : Type} : async A -> Prop :=
  | once_quiet m : quiet m -> fetches_once m
  | once_Console c k : fetches_once k -> fetches_once (Console c k)
  | once_fetch rq k : (forall r, quiet (k r)) -> fetches_once (Await_fetch rq k).

Definition task_quiet {A : Type} (t : task A) : Prop :=
  match t with
  | Settled _ => True
  | On_fetch k => forall r, quiet (k r)
  | On_text k => forall r, quiet (k r)
  | On_all _ _ => False
  end.

(** The requests a sender makes when it is called. *)
Definition requests_issued (m : async unit) : list Request :=
  network (snd (run_sync m initial)).

(** The requests the loop makes for a flagged position [u]: one to the
    chat-bot provider if that channel is configured, then one to the SMS
    provider if that channel is configured and [btoa] accepts its
    credentials. *)
Definition requests_of (env : EnvBindings) (u : AaveUser.t) : list Request :=
  (if telegram_configured env then [telegram_request env (msg_of u)] else [])
  ++ (if twilio_configured env && is_latin1 (twilio_credentials env)
      then [twilio_request env (msg_of u)] else []).

(** ** Properties of Numbers *)

Lemma of_Z_0 : of_Z 0 = S754_zero false.
Proof. reflexivity. Qed.

Lemma strict_eq_zero (x : number) :
  strict_eq x (of_Z 0) = true <-> exists sg, x = S754_zero sg.
Proof.
  rewrite of_Z_0. unfold strict_eq, SFeqb. split.
  - destruct x as [sg|sg| |sg m e]; simpl; try discriminate.
    + intros _. by exists sg.
    + destruct sg; discriminate.
    + destruct sg; discriminate.
  - intros [sg ->]. reflexivity.
Qed.

Lemma strict_eq_nonzero (x : number) :
  strict_eq x (of_Z 0) = false <-> forall sg, x <> S754_zero sg.
Proof.
  split.
  - intros H sg ->. rewrite of_Z_0 in H. discriminate.
  - intros H. destruct (strict_eq x (of_Z 0)) eqn:E; [|done].
    apply strict_eq_zero in E as [sg ->]. by destruct (H sg).
Qed.

Lemma div_NaN_l (y : number) : div NaN y = NaN.
Proof. by destruct y. Qed.

Lemma div_NaN_r (x : number) : div x NaN = NaN.
Proof. by destruct x. Qed.

Lemma mul_NaN_l (y : number) : mul NaN y = NaN.
Proof. by destruct y. Qed.

Lemma gt_NaN_l (y : number) : gt NaN y = false.
Proof. by destruct y. Qed.

Lemma strict_eq_NaN_l (y : number) : strict_eq NaN y = false.
Proof. by destruct y. Qed.

(** ** Properties of the async combinators *)

Lemma leaf_mono {A : Type} (n n' : nat) (m : async A) :
  leaf n m -> (n <= n')%nat -> leaf n' m.
Proof.
  intros H. revert n'. induction H as [| | n c k _ IH| n rq k _ IH| n rs k _ IH];
    intros n' Hle.
  - constructor.
  - constructor.
  - constructor. by apply IH.
  - destruct n' as [|n']; [lia|]. constructor. intros r. apply IH. lia.
  - destruct n' as [|n']; [lia|]. constructor. intros r. apply IH. lia.
Qed.

Lemma leaf_bind {A B : Type} (n k : nat) (m : async A) (f : A -> async B) :
  leaf n m -> (forall a, leaf k (f a)) -> leaf (n + k) (bind m f).
Proof.
  intros H Hf. induction H as [n a|n e|n c m _ IH|n rq m _ IH|n rs m _ IH]; simpl.
  - apply leaf_mono with k; [done | lia].
  - constructor.
  - constructor. exact IH.
  - constructor. exact IH.
  - constructor. exact IH.
Qed.

Lemma leaf_try_catch {A : Type} (n : nat) (m : async A) (h : thrown -> async A) :
  leaf n m -> (forall e, leaf 0 (h e)) -> leaf n (try_catch m h).
Proof.
  intros H Hh. induction H as [n a|n e|n c m _ IH|n rq m _ IH|n rs m _ IH]; simpl.
  - constructor.
  - apply leaf_mono with 0%nat; [done | lia].
  - constructor. exact IH.
  - constructor. exact IH.
  - constructor. exact IH.
Qed.

Lemma leaf_resume {A : Type} (n : nat) (r : settled A) : leaf n (resume r).
Proof. destruct r; constructor. Qed.

Lemma leaf_console (n : nat) (l : console_level) (a : list console_arg) :
  leaf n (Console {| level := l; args := a |} (Return tt)).
Proof. repeat constructor. Qed.

(** Running a leaf changes neither the pool of promises nor, once it has
    issued its request, anything but the console. *)
Lemma run_sync_leaf {A : Type} (n : nat) (m : async A) (s : state) :
  leaf n m ->
  promises (snd (run_sync m s)) = promises s /\ task_leaf n (fst (run_sync m s)).
Proof.
  intros H. revert s. induction H as [n a|n e|n c m _ IH|n rq m H _|n rs m H _];
    intros s; simpl.
  - done.
  - done.
  - destruct (IH (log c s)) as [-> ?]. done.
  - split; [done|]. by exists n.
  - split; [done|]. by exists n.
Qed.

Lemma returns_impl {A : Type} (P Q : A -> Prop) (m : async A) :
  returns P m -> (forall a, P a -> Q a) -> returns Q m.
Proof. intros H HPQ. induction H; constructor; auto. Qed.

Lemma returns_bind {A B : Type} (P : A -> Prop) (Q : B -> Prop)
    (m : async A) (f : A -> async B) :
  returns P m -> (forall a, P a -> returns Q (f a)) -> returns Q (bind m f).
Proof. intros H Hf. induction H; simpl; try (constructor; auto); auto. Qed.

(** A [try] whose handler returns lets nothing out, whatever its body does. *)
Lemma returns_try_catch {A : Type} (m : async A) (h : thrown -> async A) :
  (forall e, returns (fun _ => True) (h e)) ->
  returns (fun _ => True) (try_catch m h).
Proof. intros Hh. induction m; simpl; try (constructor; auto); auto. Qed.

Lemma run_sync_returns {A : Type} (P : A -> Prop) (m : async A) (s : state) :
  returns P m -> task_returns P (fst (run_sync m s)).
Proof.
  intros H. revert s.
  induction H as [a Ha|c k _ IH|f k _ IH|rq k Hk _|rs k Hk _|ps k Hk IH];
    intros s; simpl; auto.
  - destruct (run_sync f s) as [t s']. apply IH.
  - destruct (all_state (promises s) ps) as [r|]; simpl; auto.
Qed.

Lemma run_sync_leaf_task {A : Type} (n : nat) (m : async A) (s s' : state) :
  leaf n m -> fst (run_sync m s) = fst (run_sync m s').
Proof.
  intros H. revert s s'. induction H; intros s s'; simpl; auto.
Qed.

Lemma run_sync_bind {A B : Type} (m : async A) (f : A -> async B) (s : state) :
  run_sync (bind m f) s =
  match run_sync m s with
  | (Settled (inl a), s') => run_sync (f a) s'
  | (Settled (inr e), s') => (Settled (inr e), s')
  | (On_fetch k, s') => (On_fetch (fun r => bind (k r) f), s')
  | (On_text k, s') => (On_text (fun r => bind (k r) f), s')
  | (On_all ps k, s') => (On_all ps (fun r => bind (k r) f), s')
  end.
Proof.
  revert B f s.
  induction m as [A a|A e|A c k IH|A g _ k IH|A rq k IH|A rs k IH|A ps k IH];
    intros B f s; simpl; auto.
  - destruct (run_sync g s) as [t s']. apply IH.
  - destruct (all_state (promises s) ps) as [r|]; [apply IH | done].
Qed.

Lemma run_sync_try_catch {A : Type} (m : async A) (h : thrown -> async A)
    (s : state) :
  run_sync (try_catch m h) s =
  match run_sync m s with
  | (Settled (inl a), s') => (Settled (inl a), s')
  | (Settled (inr e), s') => run_sync (h e) s'
  | (On_fetch k, s') => (On_fetch (fun r => try_catch (k r) h), s')
  | (On_text k, s') => (On_text (fun r => try_catch (k r) h), s')
  | (On_all ps k, s') => (On_all ps (fun r => try_catch (k r) h), s')
  end.
Proof.
  revert h s.
  induction m as [A a|A e|A c k IH|A g _ k IH|A rq k IH|A rs k IH|A ps k IH];
    intros h s; simpl; auto.
  - destruct (run_sync g s) as [t s']. apply IH.
  - destruct (all_state (promises s) ps) as [r|]; [apply IH | done].
Qed.

(** ** The senders *)

Lemma sendTelegramAlert_skips (env : EnvBindings) (t : jsstring) :
  telegram_configured env = false ->
  sendTelegramAlert env t =
  console_warn
    [Str (lit "[Telegram] ⚠️ Missing TELEGRAM_BOT_TOKEN or TELEGRAM_CHAT_ID")].
Proof.
  unfold telegram_configured, sendTelegramAlert. intros H.
  destruct (truthy (TELEGRAM_BOT_TOKEN env)), (truthy (TELEGRAM_CHAT_ID env));
    simpl in *; done.
Qed.

Lemma sendTwilioSMS_skips (env : EnvBindings) (t : jsstring) :
  twilio_configured env = false ->
  sendTwilioSMS env t =
  console_warn [Str (lit "[Twilio] ⚠️ Missing Twilio credentials or phone number")].
Proof.
  unfold twilio_configured, sendTwilioSMS. intros H.
  destruct (truthy (TWILIO_ACCOUNT_SID env)), (truthy (TWILIO_AUTH_TOKEN env)),
    (truthy (TWILIO_TO_NUMBER env)); simpl in *; done.
Qed.

Lemma sendTwilioSMS_rejects (env : EnvBindings) (t : jsstring) :
  twilio_configured env = true ->
  is_latin1 (twilio_credentials env) = false ->
  sendTwilioSMS env t = Throw InvalidCharacterError.
Proof.
  unfold twilio_configured, sendTwilioSMS, twilio_credentials, btoa.
  intros H Hl.
  destruct (truthy (TWILIO_ACCOUNT_SID env)), (truthy (TWILIO_AUTH_TOKEN env)),
    (truthy (TWILIO_TO_NUMBER env)); simpl in *; try done.
  by rewrite Hl.
Qed.

(** What a sender does once [fetch] has settled: a log line, after
    [text()] when the status is not a success; nothing is thrown. *)
Lemma after_fetch_leaf (l1 l2 l3 : jsstring) (r : settled Response) :
  let m := try_catch
    (let! response := resume r in
     if ok response then console_log [Str l1]
     else let! errorData := text response in
          console_error [Str l2; Str errorData])
    (fun e => console_error [Str l3; Err e]) in
  leaf 1 m /\ returns (fun _ => True) m.
Proof.
  intros m. subst m. split.
  - apply leaf_try_catch; [|intros; apply leaf_console].
    apply (leaf_bind 0 1); [apply leaf_resume|].
    intros rs. destruct (ok rs); [apply leaf_console|].
    apply (leaf_bind 1 0); [|intros; apply leaf_console].
    constructor. intros; apply leaf_resume.
  - apply returns_try_catch. intros e. repeat constructor.
Qed.

Lemma sendTelegramAlert_leaf (env : EnvBindings) (t : jsstring) :
  leaf 2 (sendTelegramAlert env t).
Proof.
  unfold sendTelegramAlert.
  destruct (_ || _); [apply leaf_console|].
  simpl. constructor. intros r. apply after_fetch_leaf.
Qed.

Lemma sendTelegramAlert_returns (env : EnvBindings) (t : jsstring) :
  returns (fun _ => True) (sendTelegramAlert env t).
Proof.
  unfold sendTelegramAlert.
  destruct (_ || _); [repeat constructor|].
  apply returns_try_catch. intros e. repeat constructor.
Qed.

Lemma sendTwilioSMS_leaf (env : EnvBindings) (t : jsstring) :
  leaf 2 (sendTwilioSMS env t).
Proof.
  unfold sendTwilioSMS.
  destruct (_ || _); [apply leaf_console|].
  unfold btoa. destruct (is_latin1 _); [|constructor].
  simpl. constructor. intros r. apply after_fetch_leaf.
Qed.

Lemma sendTwilioSMS_returns (env : EnvBindings) (t : jsstring) :
  twilio_configured env = false \/ is_latin1 (twilio_credentials env) = true ->
  returns (fun _ => True) (sendTwilioSMS env t).
Proof.
  intros [H|H].
  - rewrite sendTwilioSMS_skips by done. repeat constructor.
  - unfold sendTwilioSMS. destruct (_ || _); [repeat constructor|].
    unfold btoa. fold (twilio_credentials env). rewrite H. simpl.
    constructor. intros r. apply after_fetch_leaf.
Qed.

(** ** One iteration of the loop *)

Lemma check_user_eq (env : EnvBindings) (user : AaveUser.t) (ps : list promise) :
  check_user env user ps =
  if flagged user then
    Console {| level := Log;
               args := [Str (lit "[Alert] ⚠️ High LTV found: " ++ AaveUser.id user
                             ++ lit " at " ++ toFixed (ltv_of user) 2 ++ lit "%")] |}
      (Call (sendTelegramAlert env (msg_of user)) (fun p =>
       Call (sendTwilioSMS env (msg_of user)) (fun p' =>
       Return ((ps ++ [p]) ++ [p']))))
  else Return ps.
Proof.
  unfold check_user, flagged, ltv_of, msg_of, shortAddr_of.
  destruct (strict_eq _ _); [reflexivity|].
  cbn [negb andb]. destruct (gt _ _); reflexivity.
Qed.

Lemma alert_tasks_cons (env : EnvBindings) (u : AaveUser.t) (users : list AaveUser.t) :
  alert_tasks env (u :: users) =
  (if flagged u
   then [promise_of (sendTelegramAlert env (msg_of u));
         promise_of (sendTwilioSMS env (msg_of u))]
   else []) ++ alert_tasks env users.
Proof.
  unfold alert_tasks. rewrite filter_cons.
  destruct (flagged u); simpl; repeat case_decide; done.
Qed.

Lemma check_user_run (env : EnvBindings) (user : AaveUser.t) (ps : list promise)
    (s : state) :
  exists s',
    run_sync (check_user env user ps) s =
      (Settled (inl (ps ++ seq (length (promises s))
                               (length (alert_tasks env [user])))), s')
    /\ promises s' = promises s ++ alert_tasks env [user].
Proof.
  rewrite check_user_eq, alert_tasks_cons. destruct (flagged user).
  - cbn [run_sync]. set (s0 := log _ s).
    assert (promises s0 = promises s) as Hp0 by done.
    destruct (run_sync (sendTelegramAlert env (msg_of user)) s0) as [t1 s1] eqn:E1.
    pose proof (run_sync_leaf 2 _ s0 (sendTelegramAlert_leaf env (msg_of user)))
      as [Hp1 _].
    pose proof (run_sync_leaf_task 2 _ s0 initial
                  (sendTelegramAlert_leaf env (msg_of user))) as Ht1.
    rewrite E1 in Hp1, Ht1. cbn [fst snd] in Hp1, Ht1.
    destruct (run_sync (sendTwilioSMS env (msg_of user)) (push t1 s1))
      as [t2 s2] eqn:E2.
    pose proof (run_sync_leaf 2 _ (push t1 s1)
                  (sendTwilioSMS_leaf env (msg_of user))) as [Hp2 _].
    pose proof (run_sync_leaf_task 2 _ (push t1 s1) initial
                  (sendTwilioSMS_leaf env (msg_of user))) as Ht2.
    rewrite E2 in Hp2, Ht2. cbn [fst snd push promises] in Hp2, Ht2.
    exists (push t2 s2). cbn [push promises].
    rewrite Hp2, Hp1, Hp0, length_app. cbn [length seq].
    rewrite Nat.add_1_r, <- !(assoc_L (++)). subst t1 t2.
    unfold alert_tasks at 1 2. split; reflexivity.
  - exists s. by rewrite !app_nil_r.
Qed.

Lemma for_of_run (env : EnvBindings) (users : list AaveUser.t) :
  forall (ps : list promise) (s : state), exists s',
    run_sync (for_of users (check_user env) ps) s =
      (Settled (inl (ps ++ seq (length (promises s))
                               (length (alert_tasks env users)))), s')
    /\ promises s' = promises s ++ alert_tasks env users.
Proof.
  induction users as [|u users IH]; intros ps s.
  - exists s. simpl. by rewrite !app_nil_r.
  - cbn [for_of]. rewrite run_sync_bind.
    destruct (check_user_run env u ps s) as (s1 & -> & Hp1).
    destruct (IH (ps ++ seq (length (promises s)) (length (alert_tasks env [u]))) s1)
      as (s2 & -> & Hp2).
    exists s2. rewrite Hp2, Hp1.
    rewrite (alert_tasks_cons env u users).
    rewrite (alert_tasks_cons env u []) in *.
    unfold alert_tasks at 2 3 5. simpl. rewrite !app_nil_r.
    split; [|by rewrite (assoc_L (++))].
    rewrite !length_app, <- (assoc_L (++)), <- seq_app. reflexivity.
Qed.

(** ** The pipeline up to its first suspension *)

Lemma task_leaf_mono {A : Type} (n n' : nat) (t : task A) :
  task_leaf n t -> (n <= n')%nat -> task_leaf n' t.
Proof.
  destruct t as [r|k|k|ps k]; simpl; auto.
  - intros (m & -> & H) Hle. destruct n' as [|n']; [lia|].
    exists n'. split; [done|]. intros r. apply leaf_mono with m; [done | lia].
  - intros (m & -> & H) Hle. destruct n' as [|n']; [lia|].
    exists n'. split; [done|]. intros r. apply leaf_mono with m; [done | lia].
Qed.

Lemma task_leaf_0 {A : Type} (t : task A) : task_leaf 0 t -> is_settled t = true.
Proof. destruct t; simpl; auto; intros (m & ? & _); lia. Qed.

Lemma alert_tasks_leaf (env : EnvBindings) (users : list AaveUser.t) :
  Forall (task_leaf 2) (alert_tasks env users).
Proof.
  induction users as [|u users IH]; [constructor|].
  rewrite alert_tasks_cons. apply Forall_app. split; [|done].
  destruct (flagged u); repeat constructor.
  - apply run_sync_leaf, sendTelegramAlert_leaf.
  - apply run_sync_leaf, sendTwilioSMS_leaf.
Qed.

Lemma checkHealthFactors_on_run (users : list AaveUser.t) (env : EnvBindings)
    (s : state) :
  promises s = [] ->
  exists t s',
    run_sync (checkHealthFactors_on users env) s = (t, s')
    /\ promises s' = alert_tasks env users
    /\ waiting_main (promises s') t
    /\ (is_settled t = true ->
        all_state (promises s') (seq 0 (length (promises s'))) <> None).
Proof.
  intros Hs. unfold checkHealthFactors_on.
  rewrite run_sync_try_catch, run_sync_bind. cbn [console_log run_sync].
  rewrite run_sync_bind. set (s0 := log _ s).
  destruct (for_of_run env users [] s0) as (s1 & -> & Hp1).
  assert (promises s0 = []) as Hp0 by done.
  rewrite Hp0 in Hp1 |- *. cbn [app length] in Hp1 |- *.
  rewrite run_sync_bind. unfold Promise_all. cbn [run_sync].
  destruct (all_state (promises s1) _) as [[[]|e]|] eqn:Hall.
  - cbn [resume run_sync]. destruct (_ =? _)%nat; eexists _, _;
      (split; [done|]); cbn [console_log run_sync log promises];
      rewrite Hp1 in Hall |- *; rewrite Hall; done.
  - cbn [resume run_sync console_error]. eexists _, _. split; [done|].
    cbn [log promises]. rewrite Hp1 in Hall |- *. rewrite Hall. done.
  - eexists _, _. split; [done|]. split; [done|]. cbn [waiting_main].
    rewrite Hp1 in Hall |- *. split; [|done]. split; [done|]. split; [done|].
    intros r. apply leaf_try_catch; [|intros; apply leaf_console].
    apply (leaf_bind 0 0); [apply leaf_resume|].
    intros _. destruct (_ =? _)%nat; [apply leaf_console|constructor].
Qed.

(** A handler that logs, runs the pipeline on [users] and finishes with
    synchronous work [f]: its state at the first suspension. *)
Lemma start_handler {R : Type} (users : list AaveUser.t) (env : EnvBindings)
    (c : console_call) (f : unit -> async R) :
  (forall a, leaf 0 (f a)) ->
  let m := Console c (bind (checkHealthFactors_on users env) f) in
  invariant (start m) /\ promises (rest (start m)) = alert_tasks env users
  /\ (is_settled (main (start m)) = true ->
      all_state (alert_tasks env users)
                (seq 0 (length (alert_tasks env users))) <> None).
Proof.
  intros Hf m. subst m. unfold start. cbn [run_sync].
  destruct (checkHealthFactors_on_run users env (log c initial) eq_refl)
    as (t & s' & E & Hp & Hw & Hs).
  rewrite run_sync_bind, E.
  pose proof (alert_tasks_leaf env users) as Hl. rewrite <- Hp in *.
  clear E. destruct t as [[a|e]|k|k|ps k]; try done.
  - destruct (run_sync_leaf 0 (f a) s' (Hf a)) as [Hp' Hl'].
    apply task_leaf_0 in Hl'. destruct (run_sync (f a) s') as [t' s''].
    unfold invariant. cbn [main rest fst snd] in *. rewrite Hp'.
    split; [split; [done | by destruct t'] | split; [done | auto]].
  - unfold invariant. cbn [main rest].
    split; [split; [done|] | split; [done | auto]].
    destruct Hw as (-> & Hall & Hk). repeat split; try done.
    intros r. by apply (leaf_bind 0 0).
Qed.

(** ** Steps of the event loop *)

Lemma poll_invariant {R : Type} (t : task R) (s : state) :
  Forall (task_leaf 2) (promises s) ->
  match t with
  | Settled _ => True
  | On_all ps k => ps = seq 0 (length (promises s)) /\ forall r, leaf 0 (k r)
  | _ => False
  end ->
  invariant (poll {| main := t; rest := s |})
  /\ promises (rest (poll {| main := t; rest := s |})) = promises s.
Proof.
  intros Hl Ht. unfold poll, invariant. cbn [main rest].
  destruct t as [r|k|k|ps k]; try done.
  destruct Ht as [-> Hk].
  destruct (all_state _ _) as [r|] eqn:Hall; cbn [main rest]; [|done].
  destruct (run_sync_leaf 0 (k r) s (Hk r)) as [Hp Hs].
  apply task_leaf_0 in Hs. destruct (run_sync (k r) s) as [t' s'].
  cbn [main rest fst snd] in *. rewrite Hp. split; [split|]; try done.
  by destruct t'.
Qed.

Lemma resume_promise_invariant {R : Type} (i : promise) (m : async unit)
    (c : config R) :
  invariant c -> leaf 1 m ->
  invariant (resume_promise i m c)
  /\ length (promises (rest (resume_promise i m c))) = length (promises (rest c)).
Proof.
  intros [Hl Hw] Hm. unfold resume_promise.
  destruct (run_sync_leaf 1 m (rest c) Hm) as [Hp Ht].
  destruct (run_sync m (rest c)) as [t s]. cbn [fst snd] in *.
  destruct (poll_invariant (main c) (set_promise i t s)) as [Hinv Hpp].
  - cbn [set_promise promises]. rewrite Hp. apply Forall_insert; [done|].
    by apply task_leaf_mono with 1%nat; [|lia].
  - cbn [set_promise promises]. rewrite length_insert, Hp.
    destruct (main c) as [r|k|k|ps k]; try done.
    by destruct Hw as (-> & _ & Hk).
  - split; [done|]. rewrite Hpp. cbn [set_promise promises].
    by rewrite length_insert, Hp.
Qed.

Lemma step_invariant {R : Type} (d : delivery) (c c' : config R) :
  invariant c -> step d c = Some c' ->
  invariant c' /\ length (promises (rest c')) = length (promises (rest c)).
Proof.
  intros Hinv. pose proof Hinv as [Hl _].
  destruct d as [i r|i r]; cbn [step];
    destruct (promises (rest c) !! i) as [[?|k|k|? ?]|] eqn:Hi; try done;
    intros [= <-]; apply resume_promise_invariant; try done;
    apply (Forall_lookup_1 _ _ _ _ Hl) in Hi as (n & [= <-] & Hk); apply Hk.
Qed.

Lemma run_invariant {R : Type} (ds : list delivery) (c c' : config R) :
  invariant c -> run ds c = Some c' ->
  invariant c' /\ length (promises (rest c')) = length (promises (rest c)).
Proof.
  revert c. induction ds as [|d ds IH]; intros c Hinv; cbn [run].
  - by intros [= <-].
  - destruct (step d c) as [c1|] eqn:Hs; [|done].
    destruct (step_invariant d c c1 Hinv Hs) as [Hinv1 Hlen1].
    intros Hr. destruct (IH c1 Hinv1 Hr) as [? Hlen]. split; [done|]. congruence.
Qed.

Lemma poll_returns {R : Type} (P : R -> Prop) (c : config R) :
  task_returns P (main c) -> task_returns P (main (poll c)).
Proof.
  intros H. unfold poll. destruct (main c) as [r|k|k|ps k] eqn:Hm;
    rewrite ?Hm; try done.
  destruct (all_state _ _) as [r|]; [|by rewrite Hm].
  pose proof (run_sync_returns P (k r) (rest c) (H r)) as Hr.
  by destruct (run_sync (k r) (rest c)).
Qed.

Lemma step_returns {R : Type} (P : R -> Prop) (d : delivery) (c c' : config R) :
  task_returns P (main c) -> step d c = Some c' -> task_returns P (main c').
Proof.
  intros H. destruct d as [i r|i r]; cbn [step];
    destruct (promises (rest c) !! i) as [[?|k|k|? ?]|]; try done;
    intros [= <-]; unfold resume_promise;
    destruct (run_sync (k r) (rest c)); by apply poll_returns.
Qed.

Lemma run_returns {R : Type} (P : R -> Prop) (ds : list delivery)
    (c c' : config R) :
  task_returns P (main c) -> run ds c = Some c' -> task_returns P (main c').
Proof.
  revert c. induction ds as [|d ds IH]; intros c H; cbn [run].
  - by intros [= <-].
  - destruct (step d c) as [c1|] eqn:Hs; [|done].
    apply IH. by apply (step_returns P d c).
Qed.

Lemma start_returns {R : Type} (P : R -> Prop) (m : async R) :
  returns P m -> task_returns P (main (start m)).
Proof.
  intros H. unfold start.
  pose proof (run_sync_returns P m initial H) as Hr.
  by destruct (run_sync m initial).
Qed.

(** ** Promise.all *)

Lemma first_rejection_Some (pool : list (task unit)) (ps : list promise)
    (e : thrown) :
  first_rejection pool ps = Some e ->
  exists p, p ∈ ps /\ pool !! p = Some (Settled (inr e)).
Proof.
  induction ps as [|p ps IH]; [done|]. cbn [first_rejection].
  destruct (pool !! p) as [[[[]|e']|k|k|qs k]|] eqn:Hp;
    try (intros H; destruct (IH H) as (q & ? & ?); exists q;
         split; [by right | done]).
  intros [= ->]. exists p. split; [by left | done].
Qed.

Lemma all_state_pending (pool : list (task unit)) :
  all_state pool (seq 0 (length pool)) = None ->
  exists i t, pool !! i = Some t /\ is_settled t = false.
Proof.
  unfold all_state. destruct (first_rejection _ _) eqn:Hnone; [done|].
  destruct (forallb _ _) eqn:Hf; [done|]. intros _.
  apply not_true_iff_false in Hf. rewrite forallb_forall in Hf.
  destruct (decide (Forall (fun p => fulfilled pool p = true)
                           (seq 0 (length pool)))) as [Hall|Hex].
  - destruct Hf. intros p Hp. rewrite Forall_forall in Hall.
    apply Hall. by apply list_elem_of_In.
  - apply not_Forall_Exists in Hex; [|apply _].
    apply Exists_exists in Hex as (p & Hp & Hnf).
    apply elem_of_seq in Hp as [_ Hp]. simpl in Hp.
    destruct (lookup_lt_is_Some_2 pool p Hp) as [t Ht].
    exists p, t. split; [done|]. unfold compose, fulfilled in Hnf. rewrite Ht in Hnf.
    destruct t as [[|]|k|k|qs k]; try done.
    (* a rejected promise would have been found by [first_rejection] *)
    exfalso. clear Hnf Hf.
    assert (forall ps, p ∈ ps -> first_rejection pool ps <> None) as Hfr.
    { induction ps as [|q ps IH]; [by intros ?%elem_of_nil|].
      intros [->|Hin]%elem_of_cons; cbn [first_rejection].
      - by rewrite Ht.
      - destruct (pool !! q) as [[[|]|?|?|? ?]|]; try done; by apply IH. }
    apply (Hfr (seq 0 (length pool))); [|exact Hnone].
    apply elem_of_seq. simpl. split; [lia | done].
Qed.

Lemma all_state_no_rejection (pool : list (task unit)) (r : settled unit) :
  Forall (task_returns (fun _ => True)) pool ->
  all_state pool (seq 0 (length pool)) = Some r ->
  Forall (fun t => is_settled t = true) pool.
Proof.
  intros Hnr. unfold all_state.
  destruct (first_rejection _ _) as [e|] eqn:Hfr.
  - apply first_rejection_Some in Hfr as (p & _ & Hp).
    by apply (Forall_lookup_1 _ _ _ _ Hnr) in Hp.
  - destruct (forallb _ _) eqn:Hf; [|done]. intros _.
    rewrite forallb_forall in Hf. apply Forall_lookup_2. intros i t Hi.
    specialize (Hf i). unfold fulfilled in Hf. rewrite Hi in Hf.
    assert (is_settled t = true -> is_settled t = true) by done.
    destruct t as [[|]|k|k|qs k]; try done; exfalso;
      specialize (Hf ltac:(apply list_elem_of_In, elem_of_seq; simpl;
        split; [lia | by apply lookup_lt_Some in Hi])); done.
Qed.

(** ** Runs *)

Lemma quiescent_settled {R : Type} (c : config R) :
  invariant c -> quiescent c -> is_settled (main c) = true.
Proof.
  intros [Hl Hw] Hq. destruct (main c) as [r|k|k|ps k]; try done.
  destruct Hw as (-> & Hall & _).
  apply all_state_pending in Hall as (i & t & Hi & Ht).
  apply (Forall_lookup_1 _ _ _ _ Hq) in Hi. congruence.
Qed.

Lemma progress {R : Type} (c : config R) :
  invariant c -> is_settled (main c) = false ->
  exists d c', step d c = Some c'.
Proof.
  intros [Hl Hw] Hm. destruct (main c) as [r|k|k|ps k]; try done.
  destruct Hw as (-> & Hall & _).
  apply all_state_pending in Hall as (i & t & Hi & Ht).
  pose proof (Forall_lookup_1 _ _ _ _ Hl Hi) as Hlf.
  destruct t as [r|k'|k'|qs k']; try done.
  - exists (Fetch_settles i (inr (Failure []))). cbn [step]. rewrite Hi. eauto.
  - exists (Text_settles i (inr (Failure []))). cbn [step]. rewrite Hi. eauto.
Qed.

Lemma resume_promise_promises {R : Type} (i : promise) (m : async unit)
    (c : config R) :
  invariant c -> leaf 1 m ->
  promises (rest (resume_promise i m c)) =
  <[i := fst (run_sync m (rest c))]> (promises (rest c)).
Proof.
  intros [Hl Hw] Hm. unfold resume_promise.
  destruct (run_sync_leaf 1 m (rest c) Hm) as [Hp Ht].
  destruct (run_sync m (rest c)) as [t s]. cbn [fst snd] in *.
  destruct (poll_invariant (main c) (set_promise i t s)) as [_ ->].
  - cbn [set_promise promises]. rewrite Hp. apply Forall_insert; [done|].
    by apply task_leaf_mono with 1%nat; [|lia].
  - cbn [set_promise promises]. rewrite length_insert, Hp.
    destruct (main c) as [r|k|k|ps k]; try done.
    by destruct Hw as (-> & _ & Hk).
  - cbn [set_promise promises]. by rewrite Hp.
Qed.

(** What a delivery does to the pool: the promise it names moves on. *)
Lemma step_promises {R : Type} (d : delivery) (c c' : config R) :
  invariant c -> step d c = Some c' ->
  exists i m,
    promises (rest c') = <[i := fst (run_sync m (rest c))]> (promises (rest c))
    /\ main c' = main (poll {| main := main c;
                               rest := set_promise i (fst (run_sync m (rest c)))
                                                   (snd (run_sync m (rest c))) |})
    /\ ((exists k r, d = Fetch_settles i r
                     /\ promises (rest c) !! i = Some (On_fetch k) /\ m = k r)
        \/ (exists k r, d = Text_settles i r
                        /\ promises (rest c) !! i = Some (On_text k) /\ m = k r)).
Proof.
  intros Hinv. pose proof Hinv as [Hl _].
  destruct d as [i r|i r]; cbn [step];
    destruct (promises (rest c) !! i) as [[?|k|k|? ?]|] eqn:Hi; try done;
    intros [= <-]; exists i, (k r);
    (split; [apply resume_promise_promises; [done|];
             apply (Forall_lookup_1 _ _ _ _ Hl) in Hi as (n & [= <-] & Hk);
             apply Hk|]);
    (split; [unfold resume_promise; by destruct (run_sync (k r) (rest c))|]);
    [left | right]; eauto.
Qed.

Lemma sum_list_insert_S (ns : list nat) (i n : nat) :
  ns !! i = Some (S n) -> S (sum_list (<[i := n]> ns)) = sum_list ns.
Proof.
  revert i. induction ns as [|a ns IH]; intros [|i]; simpl; try done.
  - by intros [= ->].
  - intros H. rewrite <- (IH i H). lia.
Qed.

(** A run is no longer than the number of suspensions left in the pool. *)
Lemma run_bound {R : Type} (ds : list delivery) :
  forall (c c' : config R) (ns : list nat),
    invariant c -> Forall2 task_leaf ns (promises (rest c)) ->
    run ds c = Some c' -> (length ds <= sum_list ns)%nat.
Proof.
  induction ds as [|d ds IH]; intros c c' ns Hinv Hns; cbn [run length]; [lia|].
  destruct (step d c) as [c1|] eqn:Hs; [|done]. intros Hr.
  destruct (step_invariant d c c1 Hinv Hs) as [Hinv1 _].
  destruct (step_promises d c c1 Hinv Hs) as (i & m & Hp & _ & Hd).
  assert (exists n, ns !! i = Some (S n) /\ leaf n m) as (n & Hn & Hm).
  { destruct Hd as [(k & r & _ & Hi & ->)|(k & r & _ & Hi & ->)];
      destruct (Forall2_lookup_r _ _ _ _ _ Hns Hi) as (n & Hn & n' & -> & Hk);
      exists n'; split; done. }
  assert (Forall2 task_leaf (<[i := n]> ns) (promises (rest c1))) as Hns1.
  { rewrite Hp. apply Forall2_insert; [done|]. by apply run_sync_leaf. }
  specialize (IH c1 c' _ Hinv1 Hns1 Hr).
  rewrite <- (sum_list_insert_S ns i n Hn). lia.
Qed.

Lemma run_bound_2 {R : Type} (ds : list delivery) (c c' : config R) :
  invariant c -> run ds c = Some c' ->
  (length ds <= 2 * length (promises (rest c)))%nat.
Proof.
  intros Hinv Hr.
  apply Nat.le_trans with (sum_list (replicate (length (promises (rest c))) 2%nat)).
  - apply (run_bound ds c c'); [done| |done].
    destruct Hinv as [Hl _]. induction Hl; simpl; constructor; done.
  - rewrite sum_list_replicate. lia.
Qed.

Lemma step_waits {R : Type} (d : delivery) (c c' : config R) :
  invariant c -> waits_for_all c -> step d c = Some c' -> waits_for_all c'.
Proof.
  intros Hinv [Hnr Hq] Hs.
  destruct (step_promises d c c' Hinv Hs) as (i & m & Hp & Hm & Hd).
  assert (promises (rest c) !! i <> None /\ returns (fun _ => True) m
          /\ leaf 1 m /\ is_settled (main c) = false) as (Hi & Hret & Hlf & Hmain).
  { destruct Hinv as [Hl _].
    destruct Hd as [(k & r & _ & Hi & ->)|(k & r & _ & Hi & ->)];
      pose proof (Forall_lookup_1 _ _ _ _ Hnr Hi) as Hk;
      pose proof (Forall_lookup_1 _ _ _ _ Hl Hi) as (n & [= <-] & Hk');
      (repeat split; [congruence | apply Hk | apply Hk' |]);
      destruct (is_settled (main c)) eqn:E; try done;
      apply (Forall_lookup_1 _ _ _ _ (Hq eq_refl)) in Hi; done. }
  assert (Forall (task_returns (fun _ => True)) (promises (rest c'))) as Hnr'.
  { rewrite Hp. apply Forall_insert; [done|]. by apply run_sync_returns. }
  split; [done|]. rewrite Hm. unfold quiescent.
  destruct (run_sync_leaf 1 m (rest c) Hlf) as [Hpm _].
  destruct (run_sync m (rest c)) as [t s]. cbn [fst snd] in *.
  destruct Hinv as [_ Hw]. unfold poll. cbn [main rest set_promise promises].
  destruct (main c) as [r|k|k|ps k]; try done.
  destruct Hw as (-> & _ & Hk). rewrite Hpm.
  destruct (all_state _ _) as [r|] eqn:Hall; [|done]. intros _.
  rewrite Hp. rewrite <- (length_insert (promises (rest c)) i t) in Hall.
  apply all_state_no_rejection in Hall; [done|]. by rewrite <- Hp.
Qed.

Lemma run_waits {R : Type} (ds : list delivery) (c c' : config R) :
  invariant c -> waits_for_all c -> run ds c = Some c' -> waits_for_all c'.
Proof.
  revert c. induction ds as [|d ds IH]; intros c Hinv Hw; cbn [run].
  - by intros [= <-].
  - destruct (step d c) as [c1|] eqn:Hs; [|done].
    apply IH; [by apply (step_invariant d c) | by apply (step_waits d c)].
Qed.

(** ** The threshold test *)

Lemma check_user_promises (env : EnvBindings) (user : AaveUser.t)
    (ps : list promise) (s : state) :
  new_promises (check_user env user ps) s =
  if flagged user
  then [promise_of (sendTelegramAlert env (msg_of user));
        promise_of (sendTwilioSMS env (msg_of user))]
  else [].
Proof.
  unfold new_promises.
  destruct (check_user_run env user ps s) as (s' & -> & Hp). cbn [snd].
  rewrite Hp, drop_app_length, alert_tasks_cons.
  destruct (flagged user); reflexivity.
Qed.

Lemma flagged_nonzero (user : AaveUser.t) :
  (forall sg, parseFloat (AaveUser.totalCollateralBase user) <> S754_zero sg) ->
  flagged user =
  gt (mul (div (parseFloat (AaveUser.totalDebtBase user))
               (parseFloat (AaveUser.totalCollateralBase user))) (of_Z 100))
     (of_Z 85).
Proof.
  intros H. apply strict_eq_nonzero in H. unfold flagged. by rewrite H.
Qed.

(** C1. For every position whose parsed collateral is not zero, the loop
    pushes alert promises if and only if the computed ratio
    [debt / collateral * 100] is strictly greater than 85; a position with
    collateral "500000" and debt "425000" has the ratio 85 exactly, which
    renders as "85.00", and its iteration does nothing. *)
Theorem alert_iff_ltv_above_85 :
  (forall (env : EnvBindings) (user : AaveUser.t) (ps : list promise) (s : state),
     (forall sg, parseFloat (AaveUser.totalCollateralBase user) <> S754_zero sg) ->
     new_promises (check_user env user ps) s <> [] <->
     gt (mul (div (parseFloat (AaveUser.totalDebtBase user))
                  (parseFloat (AaveUser.totalCollateralBase user))) (of_Z 100))
        (of_Z 85) = true)
  /\ (forall (env : EnvBindings) (i : jsstring) (ps : list promise) (s : state),
        let user := {| AaveUser.id := i;
                       AaveUser.totalCollateralBase := lit "500000";
                       AaveUser.totalDebtBase := lit "425000" |} in
        ltv_of user = of_Z 85
        /\ toFixed (ltv_of user) 2 = lit "85.00"
        /\ gt (ltv_of user) (of_Z 85) = false
        /\ check_user env user ps = Return ps
        /\ new_promises (check_user env user ps) s = []).
Proof.
  split.
  - intros env user ps s Hnz.
    rewrite check_user_promises, (flagged_nonzero user Hnz).
    destruct (gt _ _); split; done.
  - intros env i ps s user.
    assert (ltv_of user = of_Z 85) as Hltv by (vm_compute; reflexivity).
    assert (flagged user = false) as Hf by (vm_compute; reflexivity).
    rewrite check_user_promises, check_user_eq, Hf, Hltv.
    repeat split; vm_compute; reflexivity.
Qed.

Lemma alert_iff_ltv_above_85_witness :
  (forall sg, parseFloat (lit "1000000") <> S754_zero sg)
  /\ new_promises
       (check_user env_complete
          (position "0x1234567890abcdef1234567890abcdef12345678" "1000000" "900000")
          []) initial <> [].
Proof.
  assert (forall sg, parseFloat (lit "1000000") <> S754_zero sg) as Hnz
    by (intros sg; vm_compute; discriminate).
  split; [exact Hnz|].
  apply (proj1 alert_iff_ltv_above_85 env_complete
           (position "0x1234567890abcdef1234567890abcdef12345678" "1000000" "900000")
           [] initial Hnz).
  vm_compute. reflexivity.
Defined.

(** ** The zero-collateral guard *)

(** C2. A position whose collateral parses to zero (of either sign) is
    skipped whatever its debt: the iteration is the [continue] alone, so it
    computes no ratio, logs nothing, calls no sender and leaves the array of
    alert promises and the state as they were. *)
Theorem zero_collateral_skipped (env : EnvBindings) (user : AaveUser.t)
    (ps : list promise) (s : state) (sg : bool) :
  parseFloat (AaveUser.totalCollateralBase user) = S754_zero sg ->
  check_user env user ps = Return ps
  /\ run_sync (check_user env user ps) s = (Settled (inl ps), s)
  /\ new_promises (check_user env user ps) s = []
  /\ new_requests (check_user env user ps) s = [].
Proof.
  intros Hz.
  assert (check_user env user ps = Return ps) as ->.
  { unfold check_user. rewrite Hz. reflexivity. }
  repeat split; unfold new_promises, new_requests; cbn [run_sync snd];
    apply drop_all.
Qed.

Lemma zero_collateral_skipped_witness :
  parseFloat (lit "0") = S754_zero false
  /\ check_user env_complete (position "0xabc" "0" "900000") [] = Return [].
Proof.
  split; [reflexivity|].
  apply (zero_collateral_skipped env_complete (position "0xabc" "0" "900000")
           [] initial false).
  reflexivity.
Defined.

(** C10. The guard skips a position exactly when its collateral parses to
    a zero; for any other collateral, a negative one included, the ratio is
    computed and compared with 85. With collateral "-1000000" and debt
    "-900000" the ratio is 90 and both senders are called. *)
Theorem only_zero_collateral_skipped :
  (forall user : AaveUser.t,
     strict_eq (parseFloat (AaveUser.totalCollateralBase user)) (of_Z 0) = true
     <-> exists sg, parseFloat (AaveUser.totalCollateralBase user) = S754_zero sg)
  /\ (forall (env : EnvBindings) (user : AaveUser.t) (ps : list promise) (s : state),
        (forall sg, parseFloat (AaveUser.totalCollateralBase user) <> S754_zero sg) ->
        flagged user = gt (ltv_of user) (of_Z 85)
        /\ new_promises (check_user env user ps) s =
           if gt (ltv_of user) (of_Z 85)
           then [promise_of (sendTelegramAlert env (msg_of user));
                 promise_of (sendTwilioSMS env (msg_of user))]
           else [])
  /\ (forall (env : EnvBindings) (i : jsstring) (ps : list promise) (s : state),
        let user := {| AaveUser.id := i;
                       AaveUser.totalCollateralBase := lit "-1000000";
                       AaveUser.totalDebtBase := lit "-900000" |} in
        ltv_of user = of_Z 90
        /\ new_promises (check_user env user ps) s =
           [promise_of (sendTelegramAlert env (msg_of user));
            promise_of (sendTwilioSMS env (msg_of user))]).
Proof.
  split; [|split].
  - intros user. apply strict_eq_zero.
  - intros env user ps s Hnz. rewrite check_user_promises.
    rewrite (flagged_nonzero user Hnz). split; reflexivity.
  - intros env i ps s user. split; [vm_compute; reflexivity|].
    rewrite check_user_promises.
    assert (flagged user = true) as -> by (vm_compute; reflexivity).
    reflexivity.
Qed.

Lemma only_zero_collateral_skipped_witness :
  (forall sg, parseFloat (lit "-1000000") <> S754_zero sg)
  /\ flagged (position "0xabc" "-1000000" "-900000") = true.
Proof.
  assert (forall sg, parseFloat (lit "-1000000") <> S754_zero sg) as Hnz
    by (intros sg; vm_compute; discriminate).
  split; [exact Hnz|].
  destruct (proj1 (proj2 only_zero_collateral_skipped) env_complete
              (position "0xabc" "-1000000" "-900000") [] initial Hnz) as [-> _].
  vm_compute. reflexivity.
Defined.

(** ** Fields that do not parse *)

Lemma span_digits_not_digit (c : N) (r : jsstring) :
  is_digit c = false -> span_digits (c :: r) = ([], c :: r).
Proof. intros H. cbn [span_digits]. by rewrite H. Qed.

Lemma starts_unsigned_scan (neg : bool) (s : jsstring) :
  starts_unsigned s = false -> scan_unsigned neg s = None.
Proof.
  unfold starts_unsigned, scan_unsigned.
  destruct (starts_with (lit "Infinity") s); [done|]. cbn [orb].
  destruct s as [|c r]; [done|].
  intros [Hc Hr]%orb_false_elim. rewrite (span_digits_not_digit c r Hc).
  destruct (c =? 46); [|done]. cbn [andb] in Hr.
  destruct r as [|d r']; [done|]. by rewrite (span_digits_not_digit d r' Hr).
Qed.

Lemma starts_number_scan (s : jsstring) :
  starts_number s = false -> scan_literal s = None.
Proof.
  unfold starts_number, scan_literal. destruct s as [|c r]; [done|].
  destruct (c =? 43); cbn [orb]; [apply starts_unsigned_scan|].
  destruct (c =? 45); apply starts_unsigned_scan.
Qed.

Lemma parseFloat_NaN (s : jsstring) :
  starts_number (trim_start s) = false -> parseFloat s = NaN.
Proof. intros H. unfold parseFloat. by rewrite (starts_number_scan _ H). Qed.

Lemma check_user_NaN (env : EnvBindings) (user : AaveUser.t) (ps : list promise) :
  parseFloat (AaveUser.totalCollateralBase user) = NaN
  \/ parseFloat (AaveUser.totalDebtBase user) = NaN ->
  flagged user = false /\ check_user env user ps = Return ps.
Proof.
  intros H.
  assert (flagged user = false) as Hf.
  { unfold flagged, ltv_of. destruct H as [-> | ->].
    - by rewrite div_NaN_r, mul_NaN_l, gt_NaN_l, andb_false_r.
    - by rewrite div_NaN_l, mul_NaN_l, gt_NaN_l, andb_false_r. }
  split; [done|]. by rewrite check_user_eq, Hf.
Qed.

(** C7, as amended. A field that does not begin, after leading white
    space, with a decimal literal parses to [NaN]; when either field of a
    position does, the ratio is not greater than 85 and the iteration
    returns without alerting and without throwing. *)
Theorem unparsable_field_never_alerts (env : EnvBindings) (user : AaveUser.t)
    (ps : list promise) (s : state) :
  starts_number (trim_start (AaveUser.totalCollateralBase user)) = false
  \/ starts_number (trim_start (AaveUser.totalDebtBase user)) = false ->
  (parseFloat (AaveUser.totalCollateralBase user) = NaN
   \/ parseFloat (AaveUser.totalDebtBase user) = NaN)
  /\ gt (ltv_of user) (of_Z 85) = false
  /\ check_user env user ps = Return ps
  /\ run_sync (check_user env user ps) s = (Settled (inl ps), s).
Proof.
  intros H.
  assert (parseFloat (AaveUser.totalCollateralBase user) = NaN
          \/ parseFloat (AaveUser.totalDebtBase user) = NaN) as HN.
  { destruct H as [H|H]; [left|right]; by apply parseFloat_NaN. }
  destruct (check_user_NaN env user ps HN) as [_ Hc].
  split; [done|]. split; [|split; [done | by rewrite Hc]].
  unfold ltv_of. destruct HN as [-> | ->].
  - by rewrite div_NaN_r, mul_NaN_l, gt_NaN_l.
  - by rewrite div_NaN_l, mul_NaN_l, gt_NaN_l.
Qed.

Lemma unparsable_field_never_alerts_witness :
  starts_number (trim_start (lit "n/a")) = false
  /\ check_user env_complete (position "0xabc" "n/a" "900000") [] = Return [].
Proof.
  split; [reflexivity|].
  apply (unparsable_field_never_alerts env_complete
           (position "0xabc" "n/a" "900000") [] initial).
  left. reflexivity.
Defined.

(** C7, as stated, fails: "1000000 USD" and "900000 USD" are not numeric
    strings, yet [parseFloat] reads the number each begins with, the ratio
    is 90 and both senders are called. *)
Lemma non_numeric_fields_alert :
  is_numeric_string (lit "1000000 USD") = false
  /\ is_numeric_string (lit "900000 USD") = false
  /\ parseFloat (lit "1000000 USD") = of_Z 1000000
  /\ parseFloat (lit "900000 USD") = of_Z 900000
  /\ ltv_of (position "0xabc" "1000000 USD" "900000 USD") = of_Z 90
  /\ length (new_promises
       (check_user env_complete (position "0xabc" "1000000 USD" "900000 USD") [])
       initial) = 2%nat.
Proof.
  repeat split; vm_compute; reflexivity.
Qed.

(** ** The alert text *)

Lemma substring_0 (s : jsstring) (n : nat) : substring s 0 n = take n s.
Proof.
  unfold substring. rewrite Nat.min_0_l, Nat.max_0_l, Nat.min_0_l, Nat.sub_0_r.
  cbn [drop]. destruct (Nat.le_ge_cases n (length s)).
  - by rewrite Nat.min_l.
  - rewrite Nat.min_r by done. by rewrite !take_ge.
Qed.

Lemma substring_from_drop (s : jsstring) (n : nat) : substring_from s n = drop n s.
Proof.
  unfold substring_from, substring. rewrite Nat.min_id.
  rewrite Nat.max_r, Nat.min_l by lia.
  rewrite take_ge by (rewrite length_drop; lia).
  destruct (Nat.le_ge_cases n (length s)).
  - by rewrite Nat.min_l.
  - rewrite Nat.min_r by done. by rewrite !drop_ge.
Qed.

Lemma msg_of_eq (user : AaveUser.t) :
  msg_of user =
  lit "High LTV Alert! Wallet " ++ take 6 (AaveUser.id user) ++ lit "..."
  ++ drop 38 (AaveUser.id user) ++ lit " is at " ++ toFixed (ltv_of user) 2
  ++ lit "% LTV.".
Proof.
  unfold msg_of, shortAddr_of. rewrite substring_0, substring_from_drop.
  by rewrite <- !(assoc_L (++)).
Qed.

Lemma decimal_digits_aux_digits (fuel : nat) (n : N) (acc : jsstring) :
  forallb is_digit acc = true ->
  forallb is_digit (decimal_digits_aux fuel n acc) = true
  /\ (acc <> [] -> decimal_digits_aux fuel n acc <> []).
Proof.
  revert n acc. induction fuel as [|fuel IH]; intros n acc Hacc; [done|].
  cbn [decimal_digits_aux].
  assert (forallb is_digit ((48 + n mod 10) :: acc) = true) as Hacc'.
  { cbn [forallb]. rewrite Hacc, andb_true_r. unfold is_digit.
    assert (n mod 10 < 10) by (by apply N.mod_lt).
    apply andb_true_intro.
    split; apply N.leb_le; [apply N.le_add_r | clear - H; lia]. }
  destruct (n / 10 =? 0).
  - split; [done|]. done.
  - destruct (IH (n / 10) _ Hacc') as [H1 H2]. split; [done|].
    intros _. by apply H2.
Qed.

Lemma decimal_digits_digits (n : N) :
  forallb is_digit (decimal_digits n) = true /\ decimal_digits n <> [].
Proof.
  unfold decimal_digits. cbn [decimal_digits_aux].
  assert (forallb is_digit [48 + n mod 10] = true) as Hacc.
  { cbn [forallb]. unfold is_digit. assert (n mod 10 < 10) by (by apply N.mod_lt).
    apply andb_true_intro. split; [|done]. apply andb_true_intro.
    split; apply N.leb_le; [apply N.le_add_r | clear - H; lia]. }
  destruct (n / 10 =? 0); [done|].
  destruct (decimal_digits_aux_digits (N.to_nat (N.log2 n)) (n / 10)
              [48 + n mod 10] Hacc) as [H1 H2].
  split; [done|]. by apply H2.
Qed.

(** Below [10^21] the rendering to two fraction digits is digits, a point
    and two digits. *)
Lemma fixed_point_two_decimals (n : N) : two_decimals (fixed_point n 2).
Proof.
  unfold fixed_point.
  destruct (decimal_digits_digits n) as [Hd Hne].
  set (m := replicate (3 - length (decimal_digits n)) 48 ++ decimal_digits n).
  assert (forallb is_digit m = true) as Hm.
  { subst m. rewrite forallb_app, Hd, andb_true_r.
    apply forallb_forall. intros c Hc%list_elem_of_In%elem_of_replicate.
    by destruct Hc as [-> _]. }
  assert (3 <= length m)%nat as Hlen.
  { subst m. rewrite length_app, length_replicate. lia. }
  destruct (drop (length m - 2) m) as [|d1 [|d2 [|d3 l]]] eqn:Hdrop;
    pose proof (f_equal length Hdrop) as Hl; rewrite length_drop in Hl;
    cbn [length] in Hl; try lia.
  exists (take (length m - 2) m), d1, d2. split; [done|]. split.
  - intros Ht. apply (f_equal length) in Ht. rewrite length_take in Ht.
    cbn [length] in Ht. lia.
  - by rewrite <- Hdrop, take_drop.
Qed.

Lemma toFixed_two_decimals (m : positive) (e : Z) :
  ge_integer m e (10 ^ 21) = false ->
  two_decimals (toFixed (S754_finite false m e) 2).
Proof.
  intros H. unfold toFixed. rewrite H. cbn [app].
  apply fixed_point_two_decimals.
Qed.

Lemma starts_with_app (p r : jsstring) : starts_with p (p ++ r) = true.
Proof. induction p as [|c p IH]; [done|]. cbn. by rewrite N.eqb_refl. Qed.

Lemma includes_app (l sub r : jsstring) : includes (l ++ sub ++ r) sub = true.
Proof.
  induction l as [|c l IH].
  - destruct (sub ++ r) eqn:E; cbn [app includes]; rewrite <- E;
      by rewrite starts_with_app.
  - cbn [app includes]. rewrite IH. apply orb_true_r.
Qed.

(** C6, as amended. The text sent for a flagged position is "High LTV
    Alert! Wallet ", the first six code units of the identifier, "...",
    the code units from index 38 on (the last four of a 42-character
    identifier), " is at ", the ratio rendered by [toFixed(2)] and "% LTV.";
    the rendering has exactly two decimals when the ratio is finite and
    below [10^21]. For collateral "1000000" and debt "900000" the text
    contains "90.00%". *)
Theorem alert_text_shape :
  (forall (env : EnvBindings) (user : AaveUser.t) (ps : list promise),
     flagged user = true ->
     let msg :=
       lit "High LTV Alert! Wallet " ++ take 6 (AaveUser.id user) ++ lit "..."
       ++ drop 38 (AaveUser.id user) ++ lit " is at "
       ++ toFixed (ltv_of user) 2 ++ lit "% LTV." in
     (exists c,
        check_user env user ps =
        Console c
          (Call (sendTelegramAlert env msg) (fun p =>
           Call (sendTwilioSMS env msg) (fun p' =>
           Return ((ps ++ [p]) ++ [p'])))))
     /\ (length (AaveUser.id user) = 42%nat ->
         drop 38 (AaveUser.id user) = drop (length (AaveUser.id user) - 4) (AaveUser.id user)
         /\ length (drop 38 (AaveUser.id user)) = 4%nat)
     /\ (forall m e, ltv_of user = S754_finite false m e ->
                     ge_integer m e (10 ^ 21) = false ->
                     two_decimals (toFixed (ltv_of user) 2)))
  /\ (forall i : jsstring,
        let user := {| AaveUser.id := i;
                       AaveUser.totalCollateralBase := lit "1000000";
                       AaveUser.totalDebtBase := lit "900000" |} in
        flagged user = true
        /\ toFixed (ltv_of user) 2 = lit "90.00"
        /\ includes (msg_of user) (lit "90.00%") = true).
Proof.
  split.
  - intros env user ps Hf msg. split; [|split].
    + rewrite check_user_eq, Hf, msg_of_eq. eauto.
    + intros Hlen. rewrite Hlen. split; [done|]. rewrite length_drop. lia.
    + intros m e -> H. by apply toFixed_two_decimals.
  - intros i user.
    assert (toFixed (ltv_of user) 2 = lit "90.00") as Ht by (vm_compute; reflexivity).
    split; [vm_compute; reflexivity|]. split; [done|].
    assert (msg_of user =
            (lit "High LTV Alert! Wallet " ++ take 6 (AaveUser.id user) ++ lit "..."
             ++ drop 38 (AaveUser.id user) ++ lit " is at ")
            ++ lit "90.00%" ++ lit " LTV.") as ->.
    { rewrite msg_of_eq, Ht, <- !(assoc_L (++)). repeat f_equal. }
    apply includes_app.
Qed.

Lemma alert_text_shape_witness :
  flagged (position "0x1234567890abcdef1234567890abcdef12345678" "1000000" "900000")
  = true
  /\ exists c,
       check_user env_complete
         (position "0x1234567890abcdef1234567890abcdef12345678" "1000000" "900000")
         [] =
       Console c
         (Call (sendTelegramAlert env_complete
                  (lit "High LTV Alert! Wallet 0x1234...5678 is at 90.00% LTV."))
            (fun p =>
          Call (sendTwilioSMS env_complete
                  (lit "High LTV Alert! Wallet 0x1234...5678 is at 90.00% LTV."))
            (fun p' => Return (([] ++ [p]) ++ [p'])))).
Proof.
  assert (flagged (position "0x1234567890abcdef1234567890abcdef12345678"
                     "1000000" "900000") = true) as Hf by (vm_compute; reflexivity).
  split; [exact Hf|].
  exact (proj1 (proj1 alert_text_shape env_complete
           (position "0x1234567890abcdef1234567890abcdef12345678" "1000000" "900000")
           [] Hf)).
Defined.

(** C6, as stated, fails: for the first mock position the text carries the
    last four characters of the identifier, not the last six. *)
Lemma alert_text_not_first6_last6 :
  flagged (position "0x1234567890abcdef1234567890abcdef12345678" "1000000" "900000")
  = true
  /\ msg_of (position "0x1234567890abcdef1234567890abcdef12345678" "1000000" "900000")
     = lit "High LTV Alert! Wallet 0x1234...5678 is at 90.00% LTV."
  /\ first6_last6 (lit "0x1234567890abcdef1234567890abcdef12345678")
     = lit "0x1234...345678"
  /\ includes
       (msg_of (position "0x1234567890abcdef1234567890abcdef12345678"
                         "1000000" "900000"))
       (first6_last6 (lit "0x1234567890abcdef1234567890abcdef12345678")) = false.
Proof. repeat split; vm_compute; reflexivity. Qed.

(** ** The payloads *)

Lemma sendTelegramAlert_sends (env : EnvBindings) (t : jsstring) :
  telegram_configured env = true ->
  exists k, sendTelegramAlert env t = Await_fetch (telegram_request env t) k.
Proof.
  unfold telegram_configured, sendTelegramAlert, telegram_request.
  destruct (truthy (TELEGRAM_BOT_TOKEN env)), (truthy (TELEGRAM_CHAT_ID env));
    try done.
  intros _. cbn [negb orb fetch bind try_catch]. eauto.
Qed.

Lemma sendTwilioSMS_sends (env : EnvBindings) (t : jsstring) :
  twilio_configured env = true ->
  is_latin1 (twilio_credentials env) = true ->
  exists k, sendTwilioSMS env t = Await_fetch (twilio_request env t) k.
Proof.
  unfold twilio_configured, sendTwilioSMS, twilio_request, btoa.
  destruct (truthy (TWILIO_ACCOUNT_SID env)), (truthy (TWILIO_AUTH_TOKEN env)),
    (truthy (TWILIO_TO_NUMBER env)); try done.
  intros _ Hl. fold (twilio_credentials env). rewrite Hl.
  cbn [negb orb fetch bind try_catch]. eauto.
Qed.

Lemma to_USVString_well_formed (s : jsstring) :
  well_formed s = true -> to_USVString s = s.
Proof.
  remember (length s) as n eqn:Hn. revert s Hn.
  induction n as [n IH] using lt_wf_ind. intros s Hn.
  destruct s as [|c r]; [done|]. cbn [well_formed to_USVString].
  destruct (is_lead_surrogate c).
  - destruct r as [|d r']; [done|].
    intros [-> Hr]%andb_true_iff.
    rewrite (IH (length r')); [done| |done|done]. subst n. cbn [length]. lia.
  - intros [Hc Hr]%andb_true_iff. apply negb_true_iff in Hc. rewrite Hc.
    rewrite (IH (length r)); [done| |done|done]. subst n. cbn [length]. lia.
Qed.

Lemma to_USVString_marker (msg : jsstring) :
  to_USVString (lit "🚨 " ++ msg) = lit "🚨 " ++ to_USVString msg.
Proof. reflexivity. Qed.

(** C9, as amended. Both senders put the same string, the alert marker
    followed by the message, in their payload: the chat-bot sender as the
    [text] property of a JSON body whose [parse_mode] is "HTML", with no
    HTML-escaping, and the SMS sender as the [Body] field of its form,
    where the string is unchanged as long as it has no unpaired
    surrogate. *)
Theorem same_text_on_both_channels (env : EnvBindings) (msg : jsstring) :
  (telegram_configured env = true ->
   exists rq k,
     sendTelegramAlert env msg = Await_fetch rq k
     /\ body (init rq) =
        Body_string (JSON.stringify
          [(lit "chat_id", ToString (TELEGRAM_CHAT_ID env));
           (lit "text", lit "🚨 " ++ msg);
           (lit "parse_mode", lit "HTML")]))
  /\ (twilio_configured env = true ->
      is_latin1 (twilio_credentials env) = true ->
      exists rq k,
        sendTwilioSMS env msg = Await_fetch rq k
        /\ body (init rq) =
           Body_URLSearchParams
             [(lit "To", to_USVString (ToString (TWILIO_TO_NUMBER env)));
              (lit "MessagingServiceSid",
               to_USVString (ToString (TWILIO_MESSAGING_SERVICE_SID env)));
              (lit "Body", to_USVString (lit "🚨 " ++ msg))])
  /\ (well_formed msg = true ->
      to_USVString (lit "🚨 " ++ msg) = lit "🚨 " ++ msg).
Proof.
  split; [|split].
  - intros H. destruct (sendTelegramAlert_sends env msg H) as [k Hk].
    by exists (telegram_request env msg), k.
  - intros H Hl. destruct (sendTwilioSMS_sends env msg H Hl) as [k Hk].
    by exists (twilio_request env msg), k.
  - intros H. by rewrite to_USVString_marker, to_USVString_well_formed.
Qed.

Lemma same_text_on_both_channels_witness :
  telegram_configured env_complete = true
  /\ exists rq k,
       sendTelegramAlert env_complete (lit "High LTV Alert!") = Await_fetch rq k
       /\ body (init rq) =
          Body_string (JSON.stringify
            [(lit "chat_id", lit "-1001");
             (lit "text", lit "🚨 High LTV Alert!");
             (lit "parse_mode", lit "HTML")]).
Proof.
  split; [reflexivity|].
  exact (proj1 (same_text_on_both_channels env_complete (lit "High LTV Alert!"))
               eq_refl).
Defined.

(** C9, as stated, fails: for the position whose identifier is "<b>&co"
    the message holds "<", ">" and "&", and the [text] property of the
    chat-bot body is the marker and the message as they are, not the
    HTML-escaped message. *)
Lemma telegram_text_not_html_escaped :
  flagged (position "<b>&co" "1000000" "900000") = true
  /\ msg_of (position "<b>&co" "1000000" "900000")
     = lit "High LTV Alert! Wallet <b>&co... is at 90.00% LTV."
  /\ html_escape (lit "High LTV Alert! Wallet <b>&co... is at 90.00% LTV.")
     = lit "High LTV Alert! Wallet &lt;b&gt;&amp;co... is at 90.00% LTV."
  /\ exists rq k,
       sendTelegramAlert env_complete
         (lit "High LTV Alert! Wallet <b>&co... is at 90.00% LTV.")
       = Await_fetch rq k
       /\ body (init rq) =
          Body_string (JSON.stringify
            [(lit "chat_id", lit "-1001");
             (lit "text", lit "🚨 High LTV Alert! Wallet <b>&co... is at 90.00% LTV.");
             (lit "parse_mode", lit "HTML")])
       /\ body (init rq) <>
          Body_string (JSON.stringify
            [(lit "chat_id", lit "-1001");
             (lit "text",
              lit "🚨 " ++ html_escape
                (lit "High LTV Alert! Wallet <b>&co... is at 90.00% LTV."));
             (lit "parse_mode", lit "HTML")]).
Proof.
  split; [vm_compute; reflexivity|].
  split; [vm_compute; reflexivity|].
  split; [vm_compute; reflexivity|].
  destruct (sendTelegramAlert_sends env_complete
              (lit "High LTV Alert! Wallet <b>&co... is at 90.00% LTV.") eq_refl)
    as [k Hk].
  eexists _, k. split; [exact Hk|]. split; [vm_compute; reflexivity|].
  vm_compute. discriminate.
Qed.

(** ** The health route *)

(** C5, on the code: with every SMS binding set except the destination
    number, the health route reports the SMS channel as configured, while
    the SMS sender finds its configuration incomplete and skips. *)
Theorem health_ignores_destination_number (now msg : jsstring) :
  truthy (TWILIO_TO_NUMBER env_no_to_number) = false
  /\ twilio (api_health env_no_to_number now) = true
  /\ sendTwilioSMS env_no_to_number msg =
     console_warn
       [Str (lit "[Twilio] ⚠️ Missing Twilio credentials or phone number")].
Proof.
  split; [reflexivity|]. split; [reflexivity|].
  by apply sendTwilioSMS_skips.
Qed.

(** ** Failures of a sender *)

(** C4, on the code: with an auth token that holds a character outside
    Latin-1, [btoa] throws before the sender enters its [try], and the
    promise the sender returns is rejected. *)
Theorem sendTwilioSMS_rejects_non_latin1 (msg : jsstring) :
  sendTwilioSMS env_non_latin1_token msg = Throw InvalidCharacterError
  /\ promise_of (sendTwilioSMS env_non_latin1_token msg)
     = Settled (inr InvalidCharacterError).
Proof.
  assert (sendTwilioSMS env_non_latin1_token msg = Throw InvalidCharacterError) as H
    by (by apply sendTwilioSMS_rejects).
  split; [done|]. unfold promise_of. by rewrite H.
Qed.

(** C3, on the code: with that configuration the pipeline is over, its
    error logged, before the two chat-bot sends it issued have settled. *)
Theorem pipeline_ends_before_sends_settle :
  let c := start (checkHealthFactors env_non_latin1_token) in
  main c = Settled (inl tt)
  /\ map is_settled (promises (rest c)) = [false; true; false; true]
  /\ promises (rest c) !! 1%nat = Some (Settled (inr InvalidCharacterError))
  /\ length (network (rest c)) = 2%nat
  /\ last (console (rest c)) =
     Some {| level := Error;
             args := [Str (lit "[Error] Failed to fetch or process data:");
                      Err InvalidCharacterError] |}.
Proof. repeat split; vm_compute; reflexivity. Qed.

(** ** The handlers *)

Lemma checkHealthFactors_on_returns (users : list AaveUser.t) (env : EnvBindings) :
  returns (fun _ => True) (checkHealthFactors_on users env).
Proof.
  unfold checkHealthFactors_on. apply returns_try_catch.
  intros e. repeat constructor.
Qed.

Lemma api_test_returns (env : EnvBindings) :
  returns (fun r => r = acknowledgement) (api_test env).
Proof.
  unfold api_test. constructor.
  apply (returns_bind (fun _ => True)); [apply checkHealthFactors_on_returns|].
  intros _ _. by constructor.
Qed.

Lemma scheduled_returns (env : EnvBindings) :
  returns (fun _ => True) (scheduled env).
Proof. unfold scheduled. constructor. apply checkHealthFactors_on_returns. Qed.

Lemma alert_tasks_mock (env : EnvBindings) :
  length (alert_tasks env mockUsers) = 4%nat.
Proof.
  unfold mockUsers. rewrite !alert_tasks_cons.
  assert (flagged (position "0x1234567890abcdef1234567890abcdef12345678"
                            "1000000" "900000") = true) as H1
    by (vm_compute; reflexivity).
  assert (flagged (position "0xabcdef1234567890abcdef1234567890abcdef12"
                            "500000" "450000") = true) as H2
    by (vm_compute; reflexivity).
  unfold position in H1, H2. rewrite H1, H2. reflexivity.
Qed.

Lemma api_test_start (env : EnvBindings) :
  invariant (start (api_test env))
  /\ promises (rest (start (api_test env))) = alert_tasks env mockUsers.
Proof.
  destruct (start_handler mockUsers env
              {| level := Log;
                 args := [Str (lit "[Manual] 🔧 Manual test triggered via API")] |}
              (fun _ => Return acknowledgement)) as (Hi & Hp & _);
    [intros; constructor|].
  unfold api_test, checkHealthFactors. cbn [console_log bind].
  exact (conj Hi Hp).
Qed.

Lemma scheduled_start (env : EnvBindings) :
  invariant (start (scheduled env))
  /\ promises (rest (start (scheduled env))) = alert_tasks env mockUsers.
Proof.
  unfold start, scheduled, checkHealthFactors. cbn [console_log bind run_sync].
  destruct (checkHealthFactors_on_run mockUsers env
              (log {| level := Log;
                      args := [Str (lit "[Cron] ⏰ Scheduled event triggered. Checking health factors...")] |}
                   initial) eq_refl) as (t & s' & -> & Hp & Hw & _).
  unfold invariant. cbn [main rest]. rewrite Hp in *.
  split; [split; [apply alert_tasks_leaf | done] | done].
Qed.

(** C8. Whatever the configuration and however the provider calls
    settle, the manual trigger is never rejected and what it returns is the
    acknowledgement; as long as it has not returned, a provider call is
    outstanding, and at most eight settlements can occur, so it returns
    once the calls have settled. The work of the scheduled handler is never
    rejected either. *)
Theorem api_test_always_acknowledges (env : EnvBindings) :
  (forall c, reachable (api_test env) c ->
     (forall e, main c <> Settled (inr e))
     /\ (forall r, main c = Settled (inl r) -> r = acknowledgement))
  /\ (forall c, reachable (api_test env) c ->
        is_settled (main c) = false -> exists d c', step d c = Some c')
  /\ (forall c, reachable (api_test env) c ->
        quiescent c -> main c = Settled (inl acknowledgement))
  /\ (forall ds c, run ds (start (api_test env)) = Some c -> (length ds <= 8)%nat)
  /\ (forall c e, reachable (scheduled env) c -> main c <> Settled (inr e)).
Proof.
  destruct (api_test_start env) as [Hinv Hp].
  assert (forall c, reachable (api_test env) c ->
            task_returns (fun r => r = acknowledgement) (main c)) as Hsafe.
  { intros c [ds Hr]. apply (run_returns _ ds _ _ (start_returns _ _
      (api_test_returns env)) Hr). }
  split; [|split; [|split; [|split]]].
  - intros c Hc. specialize (Hsafe c Hc). split.
    + intros e He. by rewrite He in Hsafe.
    + intros r Hr. by rewrite Hr in Hsafe.
  - intros c [ds Hr] Hm.
    destruct (run_invariant ds _ _ Hinv Hr) as [Hc _]. by apply progress.
  - intros c Hc Hq. specialize (Hsafe c Hc). destruct Hc as [ds Hr].
    destruct (run_invariant ds _ _ Hinv Hr) as [Hic _].
    pose proof (quiescent_settled c Hic Hq) as Hs.
    destruct (main c) as [[r|e]|k|k|ps k]; cbn [is_settled] in Hs;
      try discriminate Hs; cbn [task_returns] in Hsafe;
      [by subst r | destruct Hsafe].
  - intros ds c Hr. pose proof (run_bound_2 ds _ _ Hinv Hr) as Hb.
    rewrite Hp, alert_tasks_mock in Hb. exact Hb.
  - intros c e [ds Hr] He.
    pose proof (run_returns _ ds _ _ (start_returns _ _ (scheduled_returns env)) Hr)
      as Hs.
    by rewrite He in Hs.
Qed.

Lemma api_test_always_acknowledges_witness :
  exists c,
    run [Fetch_settles 0 (inl {| status := 500 |});
         Fetch_settles 1 (inl {| status := 201 |});
         Text_settles 0 (inl (lit "Internal Server Error"));
         Fetch_settles 3 (inr (Failure (lit "network error")));
         Fetch_settles 2 (inl {| status := 200 |})]
        (start (api_test env_complete)) = Some c
    /\ quiescent c
    /\ main c = Settled (inl acknowledgement).
Proof.
  destruct (run [Fetch_settles 0 (inl {| status := 500 |});
                 Fetch_settles 1 (inl {| status := 201 |});
                 Text_settles 0 (inl (lit "Internal Server Error"));
                 Fetch_settles 3 (inr (Failure (lit "network error")));
                 Fetch_settles 2 (inl {| status := 200 |})]
                (start (api_test env_complete))) as [c|] eqn:Hr;
    [|exfalso; vm_compute in Hr; discriminate].
  exists c. split; [reflexivity|].
  assert (quiescent c) as Hq.
  { unfold quiescent. apply Forall_forall. intros t Ht.
    assert (forallb is_settled (promises (rest c)) = true) as Hall.
    { assert (option_map (fun c => forallb is_settled (promises (rest c)))
                (run [Fetch_settles 0 (inl {| status := 500 |});
                      Fetch_settles 1 (inl {| status := 201 |});
                      Text_settles 0 (inl (lit "Internal Server Error"));
                      Fetch_settles 3 (inr (Failure (lit "network error")));
                      Fetch_settles 2 (inl {| status := 200 |})]
                     (start (api_test env_complete))) = Some true) as H
        by (vm_compute; reflexivity).
      rewrite Hr in H. by injection H. }
    rewrite forallb_forall in Hall. by apply Hall, list_elem_of_In. }
  split; [exact Hq|].
  apply (proj1 (proj2 (proj2 (api_test_always_acknowledges env_complete))) c);
    [|exact Hq].
  by eexists.
Defined.

(** ** The pipeline as a whole *)

Lemma pipeline_start (users : list AaveUser.t) (env : EnvBindings) :
  invariant (start (checkHealthFactors_on users env))
  /\ promises (rest (start (checkHealthFactors_on users env))) = alert_tasks env users
  /\ (is_settled (main (start (checkHealthFactors_on users env))) = true ->
      all_state (alert_tasks env users)
                (seq 0 (length (alert_tasks env users))) <> None).
Proof.
  unfold start.
  destruct (checkHealthFactors_on_run users env initial eq_refl)
    as (t & s' & -> & Hp & Hw & Hs).
  unfold invariant. cbn [main rest]. rewrite Hp in *.
  split; [split; [apply alert_tasks_leaf | done] | done].
Qed.

Lemma alert_tasks_length (env : EnvBindings) (users : list AaveUser.t) :
  length (alert_tasks env users)
  = (2 * length (filter (fun u => flagged u = true) users))%nat.
Proof.
  induction users as [|u users IH]; [done|].
  rewrite alert_tasks_cons, length_app, IH, filter_cons.
  destruct (flagged u); case_decide; try done. cbn [length]. lia.
Qed.

(** X1. When the loop is over, the pool holds, for each flagged position in
    order, the promise of the chat-bot sender and then that of the SMS
    sender, called with the text of that position: two promises per flagged
    position and none for the others; no later step adds or removes one. *)
Theorem one_call_per_channel_per_flagged_position
    (users : list AaveUser.t) (env : EnvBindings) :
  promises (rest (start (checkHealthFactors_on users env))) =
    flat_map (fun u => [promise_of (sendTelegramAlert env (msg_of u));
                        promise_of (sendTwilioSMS env (msg_of u))])
             (filter (fun u => flagged u = true) users)
  /\ forall ds c,
       run ds (start (checkHealthFactors_on users env)) = Some c ->
       length (promises (rest c))
       = (2 * length (filter (fun u => flagged u = true) users))%nat.
Proof.
  destruct (pipeline_start users env) as (Hinv & Hp & _).
  split; [exact Hp|]. intros ds c Hr.
  destruct (run_invariant ds _ _ Hinv Hr) as [_ ->].
  rewrite Hp. apply alert_tasks_length.
Qed.

Lemma alert_tasks_return (env : EnvBindings) (users : list AaveUser.t) :
  twilio_configured env = false \/ is_latin1 (twilio_credentials env) = true ->
  Forall (task_returns (fun _ => True)) (alert_tasks env users).
Proof.
  intros H. induction users as [|u users IH]; [constructor|].
  rewrite alert_tasks_cons. apply Forall_app. split; [|done].
  destruct (flagged u); repeat constructor.
  - apply run_sync_returns, sendTelegramAlert_returns.
  - by apply run_sync_returns, sendTwilioSMS_returns.
Qed.

(** X2. When the SMS sender cannot reject (its configuration is incomplete, or
    its credentials are Latin-1), the pipeline completes only after every
    promise of the pool has settled, and it completes normally, whatever
    the list of positions and however the provider calls settle. *)
Theorem pipeline_waits_for_all_sends (users : list AaveUser.t) (env : EnvBindings)
    (ds : list delivery) (c : config unit) :
  twilio_configured env = false \/ is_latin1 (twilio_credentials env) = true ->
  run ds (start (checkHealthFactors_on users env)) = Some c ->
  is_settled (main c) = true ->
  quiescent c /\ main c = Settled (inl tt).
Proof.
  intros Henv Hr Hs.
  destruct (pipeline_start users env) as (Hinv & Hp & Hst).
  assert (waits_for_all (start (checkHealthFactors_on users env))) as Hw.
  { split.
    - rewrite Hp. by apply alert_tasks_return.
    - intros Hm. specialize (Hst Hm). unfold quiescent. rewrite Hp.
      destruct (all_state _ _) as [r|] eqn:Hall; [|done].
      apply (all_state_no_rejection _ r); [by apply alert_tasks_return | done]. }
  destruct (run_waits ds _ _ Hinv Hw Hr) as [_ Hq]. split; [by apply Hq|].
  pose proof (run_returns _ ds _ _
    (start_returns _ _ (checkHealthFactors_on_returns users env)) Hr) as Hret.
  destruct (main c) as [[[]|e]|k|k|ps k]; done.
Qed.

Lemma pipeline_waits_for_all_sends_witness :
  is_latin1 (twilio_credentials env_complete) = true
  /\ exists c,
       run [Fetch_settles 1 (inl {| status := 500 |});
            Fetch_settles 0 (inr (Failure (lit "timeout")));
            Fetch_settles 2 (inl {| status := 200 |});
            Text_settles 1 (inr (Failure (lit "body lost")));
            Fetch_settles 3 (inl {| status := 201 |})]
           (start (checkHealthFactors_on mockUsers env_complete)) = Some c
       /\ quiescent c /\ main c = Settled (inl tt).
Proof.
  split; [reflexivity|].
  destruct (run [Fetch_settles 1 (inl {| status := 500 |});
                 Fetch_settles 0 (inr (Failure (lit "timeout")));
                 Fetch_settles 2 (inl {| status := 200 |});
                 Text_settles 1 (inr (Failure (lit "body lost")));
                 Fetch_settles 3 (inl {| status := 201 |})]
                (start (checkHealthFactors_on mockUsers env_complete)))
    as [c|] eqn:Hr; [|exfalso; vm_compute in Hr; discriminate].
  exists c. split; [reflexivity|].
  apply (pipeline_waits_for_all_sends mockUsers env_complete _ c
           (or_intror eq_refl) Hr).
  assert (option_map (fun c => is_settled (main c))
            (run [Fetch_settles 1 (inl {| status := 500 |});
                  Fetch_settles 0 (inr (Failure (lit "timeout")));
                  Fetch_settles 2 (inl {| status := 200 |});
                  Text_settles 1 (inr (Failure (lit "body lost")));
                  Fetch_settles 3 (inl {| status := 201 |})]
                 (start (checkHealthFactors_on mockUsers env_complete)))
          = Some true) as H by (vm_compute; reflexivity).
  rewrite Hr in H. by injection H.
Defined.

(** X3. A run of the pipeline on any list of positions cannot stall and cannot
    go on for ever: while the pipeline has not completed some provider call
    is outstanding, each sender suspends at most twice (on [fetch], then on
    [text()]), so no run has more than four settlements per flagged
    position, and once nothing is outstanding the pipeline has completed
    without an error of its own. *)
Theorem pipeline_completes (users : list AaveUser.t) (env : EnvBindings)
    (ds : list delivery) (c : config unit) :
  run ds (start (checkHealthFactors_on users env)) = Some c ->
  (length ds <= 4 * length (filter (fun u => flagged u = true) users))%nat
  /\ (is_settled (main c) = false -> exists d c', step d c = Some c')
  /\ (quiescent c -> main c = Settled (inl tt)).
Proof.
  intros Hr. destruct (pipeline_start users env) as (Hinv & Hp & _).
  destruct (run_invariant ds _ _ Hinv Hr) as [Hic _].
  split; [|split].
  - pose proof (run_bound_2 ds _ _ Hinv Hr) as Hb.
    rewrite Hp, alert_tasks_length in Hb. lia.
  - by apply progress.
  - intros Hq. pose proof (quiescent_settled c Hic Hq) as Hs.
    pose proof (run_returns _ ds _ _
      (start_returns _ _ (checkHealthFactors_on_returns users env)) Hr) as Hret.
    destruct (main c) as [[[]|e]|k|k|ps k]; done.
Qed.

Lemma pipeline_completes_witness :
  exists c,
    run [Fetch_settles 0 (inl {| status := 200 |})]
        (start (checkHealthFactors_on mockUsers env_complete)) = Some c
    /\ exists d c', step d c = Some c'.
Proof.
  destruct (run [Fetch_settles 0 (inl {| status := 200 |})]
                (start (checkHealthFactors_on mockUsers env_complete)))
    as [c|] eqn:Hr; [|exfalso; vm_compute in Hr; discriminate].
  exists c. split; [reflexivity|].
  apply (pipeline_completes mockUsers env_complete _ c Hr).
  assert (option_map (fun c => is_settled (main c))
            (run [Fetch_settles 0 (inl {| status := 200 |})]
                 (start (checkHealthFactors_on mockUsers env_complete)))
          = Some false) as H by (vm_compute; reflexivity).
  rewrite Hr in H. by injection H.
Defined.

(** ** What a sender does with each outcome *)

Lemma after_fetch_outcomes (l1 l2 l3 : jsstring) :
  let k := fun r : settled Response => try_catch
    (let! response := resume r in
     if ok response then console_log [Str l1]
     else let! errorData := text response in
          console_error [Str l2; Str errorData])
    (fun e => console_error [Str l3; Err e]) in
  (forall rs, ok rs = true -> k (inl rs) = console_log [Str l1])
  /\ (forall rs, ok rs = false ->
        exists k', k (inl rs) = Await_text rs k'
                   /\ (forall b, k' (inl b) = console_error [Str l2; Str b])
                   /\ (forall e, k' (inr e) = console_error [Str l3; Err e]))
  /\ (forall e, k (inr e) = console_error [Str l3; Err e]).
Proof.
  intros k. subst k. split; [|split].
  - intros rs Hok. cbn [resume bind]. rewrite Hok. reflexivity.
  - intros rs Hok. cbn [resume bind]. rewrite Hok.
    cbn [text bind try_catch]. eexists. split; [reflexivity|]. split; reflexivity.
  - reflexivity.
Qed.

(** X4. The chat-bot sender, given its token and chat id, makes one POST to
    [/bot<token>/sendMessage]; on a 2xx status it logs the success; on any
    other status it reads the body and logs it as a failure; when [fetch]
    or [text()] rejects it logs the error. In each case it then returns:
    nothing is thrown. *)
Theorem sendTelegramAlert_outcomes (env : EnvBindings) (t : jsstring) :
  telegram_configured env = true ->
  exists k,
    sendTelegramAlert env t = Await_fetch (telegram_request env t) k
    /\ (forall rs, ok rs = true ->
          k (inl rs) = console_log [Str (lit "[Telegram] ✅ Alert sent successfully")])
    /\ (forall rs, ok rs = false ->
          exists k', k (inl rs) = Await_text rs k'
            /\ (forall b, k' (inl b) =
                  console_error [Str (lit "[Telegram] ❌ Failed to send:"); Str b])
            /\ (forall e, k' (inr e) =
                  console_error [Str (lit "[Telegram] Error:"); Err e]))
    /\ (forall e, k (inr e) = console_error [Str (lit "[Telegram] Error:"); Err e]).
Proof.
  unfold telegram_configured, sendTelegramAlert, telegram_request.
  destruct (truthy (TELEGRAM_BOT_TOKEN env)), (truthy (TELEGRAM_CHAT_ID env));
    try done.
  intros _. cbn [negb orb fetch bind try_catch]. eexists. split; [reflexivity|].
  apply (after_fetch_outcomes (lit "[Telegram] ✅ Alert sent successfully")
           (lit "[Telegram] ❌ Failed to send:") (lit "[Telegram] Error:")).
Qed.

Lemma sendTelegramAlert_outcomes_witness :
  telegram_configured env_complete = true
  /\ exists k,
       sendTelegramAlert env_complete (lit "High LTV Alert!") =
         Await_fetch (telegram_request env_complete (lit "High LTV Alert!")) k
       /\ k (inr (Failure (lit "network error"))) =
          console_error [Str (lit "[Telegram] Error:");
                         Err (Failure (lit "network error"))].
Proof.
  split; [reflexivity|].
  destruct (sendTelegramAlert_outcomes env_complete (lit "High LTV Alert!") eq_refl)
    as (k & Hk & _ & _ & He).
  exists k. split; [exact Hk | apply He].
Defined.

(** X5. The SMS sender does one of three things, decided by the configuration
    alone: with the account id, the auth token or the destination number
    missing it logs a warning and returns; with all three present but a
    code unit above U+00FF in the id or the token it throws
    [InvalidCharacterError]; otherwise it makes one POST with Basic
    authentication and handles each outcome as the chat-bot sender does. *)
Theorem sendTwilioSMS_cases (env : EnvBindings) (t : jsstring) :
  (twilio_configured env = false ->
   sendTwilioSMS env t =
   console_warn [Str (lit "[Twilio] ⚠️ Missing Twilio credentials or phone number")])
  /\ (twilio_configured env = true ->
      is_latin1 (twilio_credentials env) = false ->
      sendTwilioSMS env t = Throw InvalidCharacterError)
  /\ (twilio_configured env = true ->
      is_latin1 (twilio_credentials env) = true ->
      exists k,
        sendTwilioSMS env t = Await_fetch (twilio_request env t) k
        /\ (forall rs, ok rs = true ->
              k (inl rs) = console_log [Str (lit "[Twilio] ✅ SMS sent successfully")])
        /\ (forall rs, ok rs = false ->
              exists k', k (inl rs) = Await_text rs k'
                /\ (forall b, k' (inl b) =
                      console_error [Str (lit "[Twilio] ❌ Failed to send SMS:"); Str b])
                /\ (forall e, k' (inr e) =
                      console_error [Str (lit "[Twilio] Error:"); Err e]))
        /\ (forall e, k (inr e) = console_error [Str (lit "[Twilio] Error:"); Err e])).
Proof.
  split; [apply sendTwilioSMS_skips|]. split; [apply sendTwilioSMS_rejects|].
  unfold twilio_configured, sendTwilioSMS, twilio_request, btoa.
  destruct (truthy (TWILIO_ACCOUNT_SID env)), (truthy (TWILIO_AUTH_TOKEN env)),
    (truthy (TWILIO_TO_NUMBER env)); try done.
  intros _ Hl. fold (twilio_credentials env). rewrite Hl.
  cbn [negb orb fetch bind try_catch]. eexists. split; [reflexivity|].
  apply (after_fetch_outcomes (lit "[Twilio] ✅ SMS sent successfully")
           (lit "[Twilio] ❌ Failed to send SMS:") (lit "[Twilio] Error:")).
Qed.

Lemma sendTwilioSMS_cases_witness :
  twilio_configured env_complete = true
  /\ is_latin1 (twilio_credentials env_complete) = true
  /\ exists k,
       sendTwilioSMS env_complete (lit "High LTV Alert!") =
       Await_fetch (twilio_request env_complete (lit "High LTV Alert!")) k.
Proof.
  split; [reflexivity|]. split; [reflexivity|].
  destruct (proj2 (proj2 (sendTwilioSMS_cases env_complete (lit "High LTV Alert!")))
              eq_refl eq_refl) as (k & Hk & _).
  by exists k.
Defined.

(** X6. The chat-bot sender lets nothing out: whatever the configuration, the
    text and the way [fetch] and [text()] settle, every path through it
    ends in a return. *)
Theorem sendTelegramAlert_never_rejects (env : EnvBindings) (t : jsstring)
    (s : state) :
  returns (fun _ => True) (sendTelegramAlert env t)
  /\ forall e, fst (run_sync (sendTelegramAlert env t) s) <> Settled (inr e).
Proof.
  pose proof (sendTelegramAlert_returns env t) as H. split; [done|].
  intros e He. pose proof (run_sync_returns _ _ s H) as Hr. by rewrite He in Hr.
Qed.

(** ** The health route and the senders *)

(** X7. The health route's chat-bot flag is true exactly when the chat-bot
    sender would make a request, i.e. when the token and the chat id are
    both set and non-empty. *)
Theorem health_telegram_agrees_with_sender (env : EnvBindings) (now t : jsstring) :
  telegram (api_health env now) = true
  <-> exists rq k, sendTelegramAlert env t = Await_fetch rq k.
Proof.
  change (telegram (api_health env now)) with (telegram_configured env). split.
  - intros H. destruct (sendTelegramAlert_sends env t H) as [k Hk]. eauto.
  - intros (rq & k & H). destruct (telegram_configured env) eqn:E; [done|].
    by rewrite (sendTelegramAlert_skips env t E) in H.
Qed.



(** ** The requests of a run *)

Lemma quiet_bind {A B : Type} (m : async A) (f : A -> async B) :
  quiet m -> (forall a, quiet (f a)) -> quiet (bind m f).
Proof. intros H Hf. induction H; cbn [bind]; try constructor; auto. Qed.

Lemma quiet_try_catch {A : Type} (m : async A) (h : thrown -> async A) :
  quiet m -> (forall e, quiet (h e)) -> quiet (try_catch m h).
Proof. intros H Hh. induction H; cbn [try_catch]; try constructor; auto. Qed.

Lemma leaf_0_quiet {A : Type} (m : async A) : leaf 0 m -> quiet m.
Proof.
  intros H. remember 0%nat as n eqn:Hn.
  induction H; try discriminate; constructor; auto.
Qed.

Lemma after_fetch_quiet (l1 l2 l3 : jsstring) (r : settled Response) :
  quiet (try_catch
    (let! response := resume r in
     if ok response then console_log [Str l1]
     else let! errorData := text response in
          console_error [Str l2; Str errorData])
    (fun e => console_error [Str l3; Err e])).
Proof.
  apply quiet_try_catch; [|intros; repeat constructor].
  apply quiet_bind; [destruct r; constructor|].
  intros rs. destruct (ok rs); [repeat constructor|].
  apply quiet_bind; [|intros; repeat constructor].
  constructor. intros [b|e]; constructor.
Qed.

Lemma sendTelegramAlert_fetches_once (env : EnvBindings) (t : jsstring) :
  fetches_once (sendTelegramAlert env t).
Proof.
  unfold sendTelegramAlert. destruct (_ || _).
  - apply once_quiet. repeat constructor.
  - cbn [fetch bind try_catch]. apply once_fetch. intros r. apply after_fetch_quiet.
Qed.

Lemma sendTwilioSMS_fetches_once (env : EnvBindings) (t : jsstring) :
  fetches_once (sendTwilioSMS env t).
Proof.
  unfold sendTwilioSMS. destruct (_ || _).
  - apply once_quiet. repeat constructor.
  - unfold btoa. destruct (is_latin1 _); [|apply once_quiet; constructor].
    cbn [fetch bind try_catch]. apply once_fetch. intros r. apply after_fetch_quiet.
Qed.

Lemma run_sync_quiet {A : Type} (m : async A) (s : state) :
  quiet m ->
  network (snd (run_sync m s)) = network s /\ task_quiet (fst (run_sync m s)).
Proof.
  intros H. revert s. induction H as [a|e|c k _ IH|rs k Hk _]; intros s;
    cbn [run_sync fst snd task_quiet]; try done.
  destruct (IH (log c s)) as [-> ?]. done.
Qed.

Lemma run_sync_fetches_once {A : Type} (m : async A) (s : state) :
  fetches_once m -> task_quiet (fst (run_sync m s)).
Proof.
  intros H. revert s. induction H as [m Hq|c k _ IH|rq k Hk]; intros s.
  - by apply run_sync_quiet.
  - cbn [run_sync]. apply IH.
  - done.
Qed.

Lemma alert_tasks_quiet (env : EnvBindings) (users : list AaveUser.t) :
  Forall task_quiet (alert_tasks env users).
Proof.
  induction users as [|u users IH]; [constructor|].
  rewrite alert_tasks_cons. apply Forall_app. split; [|done].
  destruct (flagged u); repeat constructor.
  - apply run_sync_fetches_once, sendTelegramAlert_fetches_once.
  - apply run_sync_fetches_once, sendTwilioSMS_fetches_once.
Qed.

Lemma run_sync_leaf_network {A : Type} (n : nat) (m : async A) (s : state) :
  leaf n m ->
  network (snd (run_sync m s)) = network s ++ network (snd (run_sync m initial)).
Proof.
  intros H. revert s. induction H as [n a|n e|n c m _ IH|n rq m H _|n rs m H _];
    intros s; cbn [run_sync snd]; try (by rewrite app_nil_r).
  - rewrite (IH (log c s)), (IH (log c initial)). done.
  - done.
Qed.

Lemma requests_issued_telegram (env : EnvBindings) (t : jsstring) :
  requests_issued (sendTelegramAlert env t) =
  if telegram_configured env then [telegram_request env t] else [].
Proof.
  unfold requests_issued. destruct (telegram_configured env) eqn:E.
  - destruct (sendTelegramAlert_sends env t E) as [k ->]. reflexivity.
  - rewrite (sendTelegramAlert_skips env t E). reflexivity.
Qed.

Lemma requests_issued_twilio (env : EnvBindings) (t : jsstring) :
  requests_issued (sendTwilioSMS env t) =
  if twilio_configured env && is_latin1 (twilio_credentials env)
  then [twilio_request env t] else [].
Proof.
  unfold requests_issued. destruct (twilio_configured env) eqn:E.
  - destruct (is_latin1 (twilio_credentials env)) eqn:El.
    + destruct (sendTwilioSMS_sends env t E El) as [k ->]. reflexivity.
    + rewrite (sendTwilioSMS_rejects env t E El). reflexivity.
  - rewrite (sendTwilioSMS_skips env t E). reflexivity.
Qed.

Lemma check_user_network (env : EnvBindings) (user : AaveUser.t)
    (ps : list promise) (s : state) :
  network (snd (run_sync (check_user env user ps) s)) =
  network s ++ (if flagged user then requests_of env user else []).
Proof.
  rewrite check_user_eq. destruct (flagged user);
    [|cbn [run_sync snd]; by rewrite app_nil_r].
  cbn [run_sync]. set (s0 := log _ s).
  pose proof (run_sync_leaf_network 2 _ s0 (sendTelegramAlert_leaf env (msg_of user)))
    as H1.
  destruct (run_sync (sendTelegramAlert env (msg_of user)) s0) as [t1 s1].
  pose proof (run_sync_leaf_network 2 _ (push t1 s1)
                (sendTwilioSMS_leaf env (msg_of user))) as H2.
  destruct (run_sync (sendTwilioSMS env (msg_of user)) (push t1 s1)) as [t2 s2].
  cbn [snd push network] in *. rewrite H2, H1. unfold requests_of.
  fold (requests_issued (sendTelegramAlert env (msg_of user))).
  fold (requests_issued (sendTwilioSMS env (msg_of user))).
  rewrite requests_issued_telegram, requests_issued_twilio.
  by rewrite <- (assoc_L (++)).
Qed.

Lemma for_of_network (env : EnvBindings) (users : list AaveUser.t) :
  forall (ps : list promise) (s : state),
    network (snd (run_sync (for_of users (check_user env) ps) s)) =
    network s ++ flat_map (requests_of env) (filter (fun u => flagged u = true) users).
Proof.
  induction users as [|u users IH]; intros ps s.
  - cbn. by rewrite app_nil_r.
  - cbn [for_of]. rewrite run_sync_bind.
    pose proof (check_user_network env u ps s) as Hn.
    destruct (check_user_run env u ps s) as (s1 & E & _). rewrite E in Hn |- *.
    cbn [snd] in Hn. rewrite IH, Hn, filter_cons.
    destruct (flagged u); case_decide; try done.
    + cbn [flat_map]. by rewrite <- (assoc_L (++)).
    + by rewrite app_nil_r.
Qed.

Lemma checkHealthFactors_on_network (users : list AaveUser.t) (env : EnvBindings)
    (s : state) :
  network (snd (run_sync (checkHealthFactors_on users env) s)) =
  network s ++ flat_map (requests_of env) (filter (fun u => flagged u = true) users).
Proof.
  unfold checkHealthFactors_on.
  rewrite run_sync_try_catch, run_sync_bind. cbn [console_log run_sync].
  rewrite run_sync_bind. set (s0 := log _ s).
  pose proof (for_of_network env users [] s0) as Hn.
  destruct (for_of_run env users [] s0) as (s1 & E & _). rewrite E in Hn |- *.
  cbn [snd] in Hn. change (network s0) with (network s) in Hn.
  rewrite run_sync_bind. unfold Promise_all. cbn [run_sync].
  destruct (all_state (promises s1) _) as [[[]|e]|].
  - cbn [resume run_sync]. destruct (_ =? _)%nat; exact Hn.
  - exact Hn.
  - exact Hn.
Qed.

Lemma step_network {R : Type} (d : delivery) (c c' : config R) :
  invariant c -> Forall task_quiet (promises (rest c)) -> step d c = Some c' ->
  network (rest c') = network (rest c) /\ Forall task_quiet (promises (rest c')).
Proof.
  intros Hinv Hq Hs.
  destruct (step_promises d c c' Hinv Hs) as (i & m & Hp & _ & Hd).
  assert (quiet m) as Hm.
  { destruct Hd as [(k & r & _ & Hi & ->)|(k & r & _ & Hi & ->)];
      apply (Forall_lookup_1 _ _ _ _ Hq Hi). }
  destruct (run_sync_quiet m (rest c) Hm) as [Hn Ht].
  split; [|rewrite Hp; by apply Forall_insert].
  assert (c' = resume_promise i m c) as ->.
  { destruct Hd as [(k & r & -> & Hi & ->)|(k & r & -> & Hi & ->)];
      cbn [step] in Hs; rewrite Hi in Hs; by injection Hs. }
  unfold resume_promise. destruct (run_sync m (rest c)) as [t s].
  cbn [fst snd] in *. unfold poll. cbn [main rest set_promise promises].
  destruct Hinv as [_ Hw].
  destruct (main c) as [r|k|k|ps k]; try done.
  destruct (all_state _ _) as [r|]; [|done].
  destruct Hw as (_ & _ & Hk).
  destruct (run_sync_quiet (k r) (set_promise i t s) (leaf_0_quiet _ (Hk r)))
    as [Hn' _].
  destruct (run_sync (k r) (set_promise i t s)) as [t' s'].
  cbn [rest snd] in *. by rewrite Hn'.
Qed.

Lemma run_network {R : Type} (ds : list delivery) (c c' : config R) :
  invariant c -> Forall task_quiet (promises (rest c)) -> run ds c = Some c' ->
  network (rest c') = network (rest c).
Proof.
  revert c. induction ds as [|d ds IH]; intros c Hinv Hq; cbn [run].
  - by intros [= <-].
  - destruct (step d c) as [c1|] eqn:Hs; [|done]. intros Hr.
    destruct (step_network d c c1 Hinv Hq Hs) as [Hn Hq1].
    destruct (step_invariant d c c1 Hinv Hs) as [Hinv1 _].
    rewrite <- Hn. by apply IH.
Qed.

(** X9. The requests of a whole run are those made while the loop runs: for
    each flagged position, in order, one to the chat-bot provider if that
    channel is configured and one to the SMS provider if that channel is
    configured with credentials [btoa] accepts. However the provider calls
    settle, no further request is ever made: a failed send is not retried. *)
Theorem requests_made_once (users : list AaveUser.t) (env : EnvBindings)
    (ds : list delivery) (c : config unit) :
  run ds (start (checkHealthFactors_on users env)) = Some c ->
  network (rest c) =
  flat_map (fun u =>
      (if telegram_configured env then [telegram_request env (msg_of u)] else [])
      ++ (if twilio_configured env && is_latin1 (twilio_credentials env)
          then [twilio_request env (msg_of u)] else []))
    (filter (fun u => flagged u = true) users).
Proof.
  intros Hr. destruct (pipeline_start users env) as (Hinv & Hp & _).
  rewrite (run_network ds _ _ Hinv) by (by rewrite ?Hp; try apply alert_tasks_quiet).
  unfold start.
  pose proof (checkHealthFactors_on_network users env initial) as Hn.
  destruct (run_sync (checkHealthFactors_on users env) initial) as [t s].
  exact Hn.
Qed.

Lemma requests_made_once_witness :
  exists c,
    run [Fetch_settles 0 (inl {| status := 500 |});
         Text_settles 0 (inl (lit "Internal Server Error"))]
        (start (checkHealthFactors_on mockUsers env_complete)) = Some c
    /\ length (network (rest c)) = 4%nat.
Proof.
  destruct (run [Fetch_settles 0 (inl {| status := 500 |});
                 Text_settles 0 (inl (lit "Internal Server Error"))]
                (start (checkHealthFactors_on mockUsers env_complete)))
    as [c|] eqn:Hr; [|exfalso; vm_compute in Hr; discriminate].
  exists c. split; [reflexivity|].
  rewrite (requests_made_once mockUsers env_complete _ c Hr).
  vm_compute. reflexivity.
Defined.

(** ** Runs without alerts *)

Lemma for_of_unflagged (env : EnvBindings) (users : list AaveUser.t)
    (ps : list promise) :
  Forall (fun u => flagged u = false) users ->
  for_of users (check_user env) ps = Return ps.
Proof.
  intros H. induction H as [|u users Hu _ IH]; [done|].
  cbn [for_of]. by rewrite check_user_eq, Hu.
Qed.

(** X10. When no position is flagged (the empty list included) the pipeline
    makes no call and no request and completes at once, having logged the
    number of positions and then that no high LTV position was detected. *)
Theorem no_flagged_position_run (users : list AaveUser.t) (env : EnvBindings) :
  Forall (fun u => flagged u = false) users ->
  start (checkHealthFactors_on users env) =
  {| main := Settled (inl tt);
     rest := {|
       console :=
         [{| level := Log;
             args := [Str (lit "[Monitor] 🔍 Using MOCK data - "
                           ++ decimal_digits (N.of_nat (length users))
                           ++ lit " test borrowers.")] |};
          {| level := Log;
             args := [Str (lit "[Monitor] ✅ No high LTV positions detected.")] |}];
       network := [];
       promises := [] |} |}.
Proof.
  intros H. unfold start, checkHealthFactors_on.
  rewrite (for_of_unflagged env users [] H). reflexivity.
Qed.

Lemma no_flagged_position_run_witness :
  Forall (fun u => flagged u = false)
         [position "0xabc" "500000" "425000"; position "0xdef" "0" "1"]
  /\ main (start (checkHealthFactors_on
             [position "0xabc" "500000" "425000"; position "0xdef" "0" "1"]
             env_complete)) = Settled (inl tt).
Proof.
  assert (Forall (fun u => flagged u = false)
            [position "0xabc" "500000" "425000"; position "0xdef" "0" "1"]) as H
    by (repeat constructor; vm_compute; reflexivity).
  split; [exact H|].
  by rewrite (no_flagged_position_run _ env_complete H).
Defined.

(** ** The two triggers *)

Lemma run_sync_bind_Return {A B : Type} (m : async A) (b : B) (s : state) :
  snd (run_sync (bind m (fun _ => Return b)) s) = snd (run_sync m s).
Proof.
  rewrite run_sync_bind. by destruct (run_sync m s) as [[[a|e]|k|k|ps k] s'].
Qed.

(** X11. The manual trigger and the scheduled handler run the same pipeline:
    in every run of either, the requests made are those of the two mock
    positions, the chat-bot request and then the SMS request of each. *)
Theorem triggers_make_the_same_requests (env : EnvBindings) :
  (forall ds c, run ds (start (api_test env)) = Some c ->
     network (rest c) = flat_map (requests_of env) mockUsers)
  /\ (forall ds c, run ds (start (scheduled env)) = Some c ->
        network (rest c) = flat_map (requests_of env) mockUsers).
Proof.
  assert (filter (fun u => flagged u = true) mockUsers = mockUsers) as Hf.
  { unfold mockUsers. rewrite !filter_cons, filter_nil.
    rewrite !decide_True by (vm_compute; reflexivity). reflexivity. }
  split; intros ds c Hr.
  - destruct (api_test_start env) as [Hinv Hp].
    rewrite (run_network ds _ _ Hinv) by (by rewrite ?Hp; try apply alert_tasks_quiet).
    unfold start, api_test, checkHealthFactors. cbn [console_log bind run_sync].
    set (s0 := log _ initial).
    pose proof (run_sync_bind_Return (checkHealthFactors_on mockUsers env)
                  acknowledgement s0) as Hb.
    unfold acknowledgement, json in Hb.
    destruct (run_sync (bind (checkHealthFactors_on mockUsers env) _) s0) as [t s].
    cbn [rest snd] in *. rewrite Hb.
    by rewrite checkHealthFactors_on_network, Hf.
  - destruct (scheduled_start env) as [Hinv Hp].
    rewrite (run_network ds _ _ Hinv) by (by rewrite ?Hp; try apply alert_tasks_quiet).
    unfold start, scheduled, checkHealthFactors. cbn [console_log bind run_sync].
    set (s0 := log _ initial).
    pose proof (checkHealthFactors_on_network mockUsers env s0) as Hn.
    destruct (run_sync (checkHealthFactors_on mockUsers env) s0) as [t s].
    cbn [rest snd] in *. by rewrite Hn, Hf.
Qed.

Lemma triggers_make_the_same_requests_witness :
  exists c,
    run [Fetch_settles 1 (inr (Failure (lit "network error")))]
        (start (scheduled env_complete)) = Some c
    /\ length (network (rest c)) = 4%nat.
Proof.
  destruct (run [Fetch_settles 1 (inr (Failure (lit "network error")))]
                (start (scheduled env_complete)))
    as [c|] eqn:Hr; [|exfalso; vm_compute in Hr; discriminate].
  exists c. split; [reflexivity|].
  rewrite (proj2 (triggers_make_the_same_requests env_complete) _ c Hr).
  vm_compute. reflexivity.
Defined.

(** ** The short form of an identifier *)

(** X12. The short form keeps the first six code units and those from index 38
    on: an identifier of at most 38 code units has nothing after the
    ellipsis, one of at most six is kept whole before it, and a
    42-character address gives 13 characters. *)
Theorem shortAddr_lengths (user : AaveUser.t) :
  shortAddr_of user =
    take 6 (AaveUser.id user) ++ lit "..." ++ drop 38 (AaveUser.id user)
  /\ ((length (AaveUser.id user) <= 38)%nat ->
      shortAddr_of user = take 6 (AaveUser.id user) ++ lit "...")
  /\ ((length (AaveUser.id user) <= 6)%nat ->
      shortAddr_of user = AaveUser.id user ++ lit "...")
  /\ (length (AaveUser.id user) = 42%nat -> length (shortAddr_of user) = 13%nat).
Proof.
  assert (shortAddr_of user =
          take 6 (AaveUser.id user) ++ lit "..." ++ drop 38 (AaveUser.id user)) as E
    by (unfold shortAddr_of; by rewrite substring_0, substring_from_drop).
  rewrite E. split; [done|]. split; [|split].
  - intros H. by rewrite (drop_ge _ _ H), app_nil_r.
  - intros H. rewrite (drop_ge _ 38) by lia. by rewrite take_ge, app_nil_r.
  - intros H. rewrite !length_app, length_take, length_drop, H. reflexivity.
Qed.

Lemma shortAddr_lengths_witness :
  (length (lit "0xabc") <= 6)%nat
  /\ shortAddr_of (position "0xabc" "1" "1") = lit "0xabc...".
Proof.
  split; [vm_compute; lia|].
  apply (proj1 (proj2 (proj2 (shortAddr_lengths (position "0xabc" "1" "1"))))).
  vm_compute. lia.
Defined.

(** ** Ratios that cannot alert *)

Lemma of_Z_100 : of_Z 100 = S754_finite false 7036874417766400 (-46).
Proof. reflexivity. Qed.

Lemma of_Z_85 : of_Z 85 = S754_finite false 5981343255101440 (-46).
Proof. reflexivity. Qed.

(** Rounding gives a result of the sign it was asked for, or [NaN]. *)
Lemma binary_round_aux_sign (sx : bool) (mx ex : Z) (lx : location) :
  let r := binary_round_aux prec emax sx mx ex lx in
  r = S754_nan \/ r = S754_zero sx \/ r = S754_infinity sx
  \/ exists m e, r = S754_finite sx m e.
Proof.
  unfold binary_round_aux.
  destruct (shr_fexp prec emax mx ex lx) as [mrs e'].
  destruct (shr_fexp prec emax _ e' loc_Exact) as [mrs' e''].
  destruct (shr_m mrs') as [|m|m]; [by right; left | | by left].
  destruct (e'' <=? emax - prec)%Z; [|by right; right; left].
  right. right. right. by exists m, e''.
Qed.

Lemma gt_85_negative (x : number) :
  x = S754_nan \/ x = S754_zero true \/ x = S754_infinity true
  \/ (exists m e, x = S754_finite true m e) ->
  gt x (of_Z 85) = false.
Proof.
  rewrite of_Z_85. intros [->|[->|[->|(m & e & ->)]]]; reflexivity.
Qed.

(** X13. A position whose debt parses to zero never alerts, whatever its
    collateral: the ratio is a zero or [NaN], or the position is skipped. *)
Theorem zero_debt_never_alerts (env : EnvBindings) (user : AaveUser.t)
    (ps : list promise) (sg : bool) :
  parseFloat (AaveUser.totalDebtBase user) = S754_zero sg ->
  flagged user = false /\ check_user env user ps = Return ps.
Proof.
  intros Hd.
  assert (flagged user = false) as Hf.
  { unfold flagged, ltv_of. rewrite Hd, of_Z_100, of_Z_85.
    destruct (parseFloat (AaveUser.totalCollateralBase user)) as [s|s| |s m e];
      try reflexivity.
    - apply andb_false_r.
    - apply andb_false_r. }
  split; [done|]. by rewrite check_user_eq, Hf.
Qed.

Lemma zero_debt_never_alerts_witness :
  parseFloat (lit "0") = S754_zero false
  /\ check_user env_complete (position "0xabc" "1000000" "0") [] = Return [].
Proof.
  split; [reflexivity|].
  exact (proj2 (zero_debt_never_alerts env_complete
                  (position "0xabc" "1000000" "0") [] false
                  ltac:(vm_compute; reflexivity))).
Defined.

(** X14. A position whose two fields parse to finite non-zero numbers of
    opposite signs never alerts: the ratio is negative (or a zero). *)
Theorem opposite_signs_never_alert (env : EnvBindings) (user : AaveUser.t)
    (ps : list promise) (sd sc : bool) (md mc : positive) (ed ec : Z) :
  parseFloat (AaveUser.totalDebtBase user) = S754_finite sd md ed ->
  parseFloat (AaveUser.totalCollateralBase user) = S754_finite sc mc ec ->
  sd <> sc ->
  flagged user = false /\ check_user env user ps = Return ps.
Proof.
  intros Hd Hc Hs.
  assert (xorb sd sc = true) as Hx by (by destruct sd, sc).
  assert (flagged user = false) as Hf.
  { unfold flagged, ltv_of. rewrite Hd, Hc. apply andb_false_iff. right.
    apply gt_85_negative. rewrite of_Z_100. unfold div, SFdiv.
    destruct (SFdiv_core_binary prec emax (Z.pos md) ed (Z.pos mc) ec)
      as [[mz ez] lz].
    rewrite Hx.
    destruct (binary_round_aux_sign true mz ez lz) as [->|[->|[->|(m & e & ->)]]];
      cbn [mul SFmul xorb]; auto.
    destruct (binary_round_aux_sign true
                (Z.pos (m * 7036874417766400)) (e + -46) loc_Exact)
      as [->|[->|[->|(m' & e' & ->)]]]; eauto 6. }
  split; [done|]. by rewrite check_user_eq, Hf.
Qed.

Lemma opposite_signs_never_alert_witness :
  check_user env_complete (position "0xabc" "1000000" "-900000") [] = Return [].
Proof.
  exact (proj2 (opposite_signs_never_alert env_complete
    (position "0xabc" "1000000" "-900000") [] true false
    7730941132800000 8589934592000000 (-33) (-33) ltac:(vm_compute; reflexivity)
    ltac:(vm_compute; reflexivity)
    ltac:(discriminate))).
Defined.

(** ** Parsing integer fields *)

Lemma is_digit_range (c : N) : is_digit c = true <-> 48 <= c <= 57.
Proof.
  unfold is_digit. rewrite andb_true_iff, !N.leb_le. done.
Qed.

Lemma span_digits_app (ds rest : jsstring) :
  forallb is_digit ds = true ->
  match rest with [] => True | c :: _ => is_digit c = false end ->
  span_digits (ds ++ rest) = (ds, rest).
Proof.
  intros Hds Hrest. induction ds as [|d ds IH]; cbn [app].
  - destruct rest as [|c r]; [done|]. by apply span_digits_not_digit.
  - cbn [forallb] in Hds. apply andb_true_iff in Hds as [Hd Hds].
    cbn [span_digits]. rewrite Hd, (IH Hds). done.
Qed.

Lemma digits_value_nonneg (ds : jsstring) : (0 <= digits_value ds)%Z.
Proof.
  unfold digits_value.
  assert (forall acc, (0 <= acc)%Z ->
            (0 <= fold_left (fun acc c => 10 * acc + Z.of_N (c - 48)) ds acc)%Z) as H.
  { induction ds as [|d ds IH]; intros acc Hacc; [done|].
    cbn [fold_left]. apply IH. lia. }
  by apply H.
Qed.

Lemma trim_start_app (ws s : jsstring) :
  forallb is_StrWhiteSpaceChar ws = true ->
  match s with [] => True | c :: _ => is_StrWhiteSpaceChar c = false end ->
  trim_start (ws ++ s) = s.
Proof.
  intros Hws Hs. induction ws as [|w ws IH]; cbn [app].
  - destruct s as [|c r]; [done|]. cbn [trim_start]. by rewrite Hs.
  - cbn [forallb] in Hws. apply andb_true_iff in Hws as [Hw Hws].
    cbn [trim_start]. rewrite Hw. by apply IH.
Qed.

Lemma digit_not_special (c : N) :
  is_digit c = true ->
  is_StrWhiteSpaceChar c = false /\ (c =? 43) = false /\ (c =? 45) = false
  /\ (c =? 73) = false.
Proof.
  intros [H1 H2]%is_digit_range. repeat split.
  - unfold is_StrWhiteSpaceChar. apply orb_false_iff. split.
    + apply bool_decide_eq_false. rewrite !elem_of_cons, elem_of_nil. lia.
    + apply andb_false_iff. left. apply N.leb_gt. lia.
  - apply N.eqb_neq. lia.
  - apply N.eqb_neq. lia.
  - apply N.eqb_neq. lia.
Qed.

(** X15. A field that is a run of decimal digits, possibly after white space
    and possibly followed by text that does not go on with a digit, a
    point or an exponent mark, parses to the Number nearest to the integer
    the digits denote; what follows the digits is ignored. *)
Theorem parseFloat_integer_prefix (ws ds rest : jsstring) :
  forallb is_StrWhiteSpaceChar ws = true ->
  ds <> [] -> forallb is_digit ds = true ->
  match rest with
  | [] => True
  | c :: _ => is_digit c = false /\ c <> 46 /\ c <> 101 /\ c <> 69
  end ->
  parseFloat (ws ++ ds ++ rest) = of_Z (digits_value ds).
Proof.
  intros Hws Hne Hds Hrest.
  destruct ds as [|d ds']; [done|]. clear Hne.
  pose proof Hds as Hds0. cbn [forallb] in Hds0.
  apply andb_true_iff in Hds0 as [Hd _].
  destruct (digit_not_special d Hd) as (Hw & Hp & Hm & HI).
  unfold parseFloat.
  rewrite (trim_start_app ws ((d :: ds') ++ rest) Hws) by (cbn [app]; exact Hw).
  assert (scan_literal ((d :: ds') ++ rest) =
          Some (Lit_Decimal false (d :: ds') [] 0%Z, rest)) as ->.
  { cbn [app]. unfold scan_literal. rewrite Hp, Hm. unfold scan_unsigned.
    assert (starts_with (lit "Infinity") (d :: ds' ++ rest) = false) as ->.
    { change (lit "Infinity") with (73 :: lit "nfinity"). cbn [starts_with].
      by rewrite N.eqb_sym, HI. }
    change (d :: ds' ++ rest) with ((d :: ds') ++ rest).
    rewrite (span_digits_app (d :: ds') rest Hds)
      by (destruct rest; [done | apply Hrest]).
    destruct rest as [|c r]; [done|].
    destruct Hrest as (_ & H46 & H101 & H69).
    apply N.eqb_neq in H46, H101, H69. rewrite H46.
    unfold scan_exponent. by rewrite H101, H69. }
  cbn [literal_value length]. rewrite app_nil_r.
  pose proof (digits_value_nonneg (d :: ds')) as Hnn.
  unfold of_decimal. destruct (digits_value (d :: ds')) as [|p|p] eqn:E;
    [reflexivity | | lia].
  change (Z.sub 0 (Z.of_nat 0)) with 0%Z. cbn [Z.leb Z.compare].
  by rewrite Z.pow_0_r, Z.mul_1_r.
Qed.

Lemma parseFloat_integer_prefix_witness :
  forallb is_StrWhiteSpaceChar (lit "  ") = true
  /\ forallb is_digit (lit "1000000") = true
  /\ parseFloat (lit "  " ++ lit "1000000" ++ lit " USD") = of_Z 1000000.
Proof.
  assert (forallb is_StrWhiteSpaceChar (lit "  ") = true) as H1
    by (vm_compute; reflexivity).
  assert (forallb is_digit (lit "1000000") = true) as H2
    by (vm_compute; reflexivity).
  split; [exact H1|]. split; [exact H2|].
  rewrite (parseFloat_integer_prefix (lit "  ") (lit "1000000") (lit " USD") H1);
    [vm_compute; reflexivity | vm_compute; discriminate | exact H2 |].
  vm_compute. repeat split; discriminate.
Defined.

(** ** Isolation of the sends *)

(** X16. A settlement changes the state of the one promise it is delivered to:
    in any run of the pipeline, whatever a provider answers for one send
    (a failure status, a rejected [fetch]), every other send stays as it
    was and the pool keeps its size. *)
Theorem settlement_touches_one_promise (users : list AaveUser.t)
    (env : EnvBindings) (ds : list delivery) (d : delivery) (c c' : config unit) :
  run ds (start (checkHealthFactors_on users env)) = Some c ->
  step d c = Some c' ->
  exists i,
    ((exists r, d = Fetch_settles i r) \/ (exists r, d = Text_settles i r))
    /\ (forall j, j <> i -> promises (rest c') !! j = promises (rest c) !! j)
    /\ length (promises (rest c')) = length (promises (rest c)).
Proof.
  intros Hr Hs. destruct (pipeline_start users env) as (Hinv & _ & _).
  destruct (run_invariant ds _ _ Hinv Hr) as [Hic _].
  destruct (step_promises d c c' Hic Hs) as (i & m & Hp & _ & Hd).
  exists i. split; [|split].
  - destruct Hd as [(k & r & -> & _)|(k & r & -> & _)]; [left | right]; eauto.
  - intros j Hj. rewrite Hp. by apply list_lookup_insert_ne.
  - rewrite Hp. apply length_insert.
Qed.

Lemma settlement_touches_one_promise_witness :
  exists c c',
    run [] (start (checkHealthFactors_on mockUsers env_complete)) = Some c
    /\ step (Fetch_settles 0 (inl {| status := 500 |})) c = Some c'
    /\ promises (rest c') !! 1%nat = promises (rest c) !! 1%nat.
Proof.
  destruct (step (Fetch_settles 0 (inl {| status := 500 |}))
              (start (checkHealthFactors_on mockUsers env_complete)))
    as [c'|] eqn:Hs; [|exfalso; vm_compute in Hs; discriminate].
  exists (start (checkHealthFactors_on mockUsers env_complete)), c'.
  split; [reflexivity|]. split; [exact Hs|].
  destruct (settlement_touches_one_promise mockUsers env_complete []
              (Fetch_settles 0 (inl {| status := 500 |})) _ c' eq_refl Hs)
    as (i & [[r Hd]|[r Hd]] & Hj & _); [|discriminate Hd].
  injection Hd as <- _. apply Hj. lia.
Defined.
